(** * Motia orchestration runtime: event bus, core, HTTP trigger, scheduler

    A shallow embedding of the JavaScript runtime (InMemoryMessageBus,
    MotiaCore, MotiaServer, MotiaScheduler) and of the TypeScript API
    server (createServer / asyncHandler), followed by the properties of
    the behavioural specification checked against it.

    Conventions of the embedding:
    - a JavaScript string is a [string]; [===] on strings is [String.eqb];
    - a JavaScript number that holds a non-negative integer is a [Z]
      (exact below 2^53, which covers every duration used here);
    - [undefined] for an optional field is [None];
    - a thrown value is an [Error] object carrying its [message], which is
      the only field the catch blocks of the source read;
    - an [async] function is a computation whose outcome is fulfilled
      ([Ret]), rejected ([Throw]) or never settled ([Hang]), and whose
      observable actions are appended to a log;
    - calls of externally supplied functions (subscribers, components,
      authorization checks, transforms, API handlers), console output and
      HTTP responses are the observable actions; writing a response does
      not fail. *)

From Stdlib Require Import String Ascii List ZArith Lia Bool.
Import ListNotations.
Open Scope string_scope.
Open Scope list_scope.

(** ** JavaScript string primitives used by the source *)

Module Js.

(** [s.startsWith(p)] *)
Definition startsWith (s p : string) : bool := String.prefix p s.

(** [s.endsWith(suffix)] *)
Definition endsWith (s suffix : string) : bool :=
  let n := String.length s in
  let m := String.length suffix in
  if Nat.leb m n then String.eqb (String.substring (n - m) m s) suffix else false.

(** An index argument of [slice], resolved against the length: a negative
    index counts from the end, and the result is clamped to [0, len]. *)
Definition slice_index (len : nat) (i : Z) : nat :=
  if (i <? 0)%Z then Z.to_nat (Z.max (Z.of_nat len + i) 0)
  else Nat.min (Z.to_nat i) len.

(** [s.slice(b, e)] *)
Definition slice (s : string) (b e : Z) : string :=
  let len := String.length s in
  let from := slice_index len b in
  let to := slice_index len e in
  String.substring from (to - from) s.

(** [s.split(sep)] for a one-character separator: the pieces between the
    occurrences of [sep]; the empty string splits into one empty piece. *)
Fixpoint split (sep : ascii) (s : string) : list string :=
  match s with
  | EmptyString => [EmptyString]
  | String c rest =>
      if Ascii.eqb c sep then EmptyString :: split sep rest
      else match split sep rest with
           | piece :: pieces => String c piece :: pieces
           | [] => [String c EmptyString]
           end
  end.

(** The character class [\d] (without the unicode flag): ASCII 0-9. *)
Definition is_digit (c : ascii) : bool :=
  let n := nat_of_ascii c in Nat.leb 48 n && Nat.leb n 57.

Fixpoint all_digits (s : string) : bool :=
  match s with
  | EmptyString => true
  | String c rest => is_digit c && all_digits rest
  end.

(** [parseInt(s, 10)] on a string of decimal digits. *)
Fixpoint parseInt_from (acc : Z) (s : string) : Z :=
  match s with
  | EmptyString => acc
  | String c rest => parseInt_from (10 * acc + Z.of_nat (nat_of_ascii c - 48)) rest
  end.

Definition parseInt (s : string) : Z := parseInt_from 0 s.

(** A truthy string: defined and not empty. *)
Definition truthy_string (s : option string) : bool :=
  match s with
  | Some EmptyString | None => false
  | Some _ => true
  end.

(** A defined (hence truthy) function-valued field. *)
Definition defined {A : Type} (f : option A) : bool :=
  match f with Some _ => true | None => false end.

(** The string held by a field known to be a string. *)
Definition string_of (s : option string) : string :=
  match s with Some v => v | None => EmptyString end.


End Js.

(** ** Errors, outcomes and the log of observable actions *)

Record Error := mkError { message : string }.

Inductive outcome (A : Type) : Type :=
| Ret (a : A)
| Throw (e : Error)
| Hang.

Arguments Ret {A} a.
Arguments Throw {A} e.
Arguments Hang {A}.

(** ** Data model *)

#[local] Set Warnings "-register-all".

(** Event payloads and response bodies: the JSON-like values the runtime
    passes around without looking inside. *)
Inductive value : Type :=
| VUndefined
| VBool (b : bool)
| VNumber (n : Z)
| VString (s : string)
| VObject (fields : list (string * value)).

(** [{ type, data }] *)
Record event := mkEvent { type : string; data : value }.

(** The second argument of [emit] and [publish]: [{ traceId, metadata }]. *)
Record options := mkOptions {
  traceId : option string;
  metadata : list (string * string)
}.

(** The part of an Express request the runtime reads. *)
Record request := mkRequest {
  req_path : string;
  req_method : string;
  req_headers : list (string * string);
  req_body : value
}.

(** [obj[key]] on an object used as a string-keyed table. *)
Fixpoint lookup {V : Type} (key : string) (table : list (string * V)) : option V :=
  match table with
  | [] => None
  | (k, v) :: rest => if String.eqb k key then Some v else lookup key rest
  end.

(** Observable actions: calls into externally supplied functions, console
    output, HTTP responses and timers. *)
Inductive obs : Type :=
| CallSubscriber (index : nat) (e : event) (o : options)
| CallComponent (id : string) (input : value) (emit_opts : options) (third : string)
| ConsoleError (label : string) (err : Error)
| CallAuthorize (r : request)
| CallTransform (r : request)
| CallEmit (e : event) (o : options)
| Respond (status : nat) (body : value)
| RandomUUID (id : string)
| SetHeader (key value : string)
| ConsoleLog (err : Error)
| EventManagerEmit (e : event) (trace : string) (flows : list string) (file : string).

(** ** Asynchronous computations

    [M A] is an awaited computation: the actions it performed and how it
    settled.  Sequencing is [await]; [Hang] (a promise that never settles)
    and [Throw] stop what follows, and only [Throw] is caught. *)

Definition M (A : Type) : Type := (list obs * outcome A)%type.

Definition ret {A} (a : A) : M A := ([], Ret a).
Definition throw {A} (e : Error) : M A := ([], Throw e).
Definition hang {A} : M A := ([], Hang).
Definition emit_obs (o : obs) : M unit := ([o], Ret tt).

Definition bind {A B} (m : M A) (k : A -> M B) : M B :=
  match m with
  | (l1, Ret a) => let (l2, r) := k a in (l1 ++ l2, r)
  | (l1, Throw e) => (l1, Throw e)
  | (l1, Hang) => (l1, Hang)
  end.

(** [try { m } catch (e) { h e }] *)
Definition try_catch {A} (m : M A) (h : Error -> M A) : M A :=
  match m with
  | (l1, Throw e) => let (l2, r) := h e in (l1 ++ l2, r)
  | settled => settled
  end.

(** Calling an external function whose result is awaited. *)
Definition await {A} (r : outcome A) : M A := ([], r).

Definition actions {A} (m : M A) : list obs := fst m.
Definition result {A} (m : M A) : outcome A := snd m.

Declare Scope js_scope.
Delimit Scope js_scope with js.
Notation "x <- m ;; k" := (bind m (fun x => k))
  (at level 61, m at next level, right associativity) : js_scope.
Notation "m ;; k" := (bind m (fun _ => k))
  (at level 61, right associativity) : js_scope.
Open Scope js_scope.

(** ** InMemoryMessageBus *)

Module InMemoryMessageBus.

(** A subscriber is an async function [(event, options) => Promise]. *)
Definition subscriber : Type := event -> options -> M unit.

(** [this.subscribers] *)
Definition t : Type := list subscriber.

(** [constructor()] *)
Definition create : t := [].

(** [subscribe(handler)]: [this.subscribers.push(handler)] *)
Definition subscribe (bus : t) (handler : subscriber) : t := bus ++ [handler].

(** [p.catch((error) => console.error("Error in subscriber:", error))]:
    a rejection is logged and turned into a fulfilled promise. *)
Definition caught (p : M unit) : M unit :=
  try_catch p (fun error => emit_obs (ConsoleError "Error in subscriber:" error)).

(** [this.subscribers.map((subscriber) => subscriber(event, options).catch(...))]:
    every subscriber is called, in list order, and yields one promise.  The
    log linearises the round subscriber by subscriber. *)
Fixpoint fan_out (index : nat) (subs : list subscriber) (e : event) (o : options)
  : list obs * list (outcome unit) :=
  match subs with
  | [] => ([], [])
  | s :: rest =>
      let p := caught (s e o) in
      let (l, ps) := fan_out (S index) rest e o in
      (CallSubscriber index e o :: actions p ++ l, result p :: ps)
  end.

(** [Promise.all(promises)]: rejected as soon as one of them is, pending
    while one of them is, fulfilled otherwise. *)
Fixpoint promise_all (ps : list (outcome unit)) : outcome unit :=
  match ps with
  | [] => Ret tt
  | p :: rest =>
      match p, promise_all rest with
      | Throw e, _ => Throw e
      | _, Throw e => Throw e
      | Hang, _ => Hang
      | Ret _, r => r
      end
  end.

(** [async publish(event, options)] *)
Definition publish (bus : t) (e : event) (o : options) : M unit :=
  let (l, ps) := fan_out 0 bus e o in (l, promise_all ps).

End InMemoryMessageBus.

(** ** MotiaCore *)

Module MotiaCore.

(** [eventMatchesPattern(eventType, pattern)] *)
Definition eventMatchesPattern (eventType pattern : string) : bool :=
  if String.eqb pattern "*" then true
  else if String.eqb pattern eventType then true
  else if Js.endsWith pattern ".*" then
    let prefix := Js.slice pattern 0 (-2) in
    Js.startsWith eventType prefix
  else false.

(** The matching rule as the specification words it: equality, the
    literal wildcard, or a suffix wildcard [prefix.*] that matches the
    types beginning with [prefix.], the dot included; nothing else. *)
Definition spec_match (eventType pattern : string) : bool :=
  String.eqb pattern eventType
  || String.eqb pattern "*"
  || (Js.endsWith pattern ".*"
      && Js.startsWith eventType (Js.slice pattern 0 (-1))).

(** A component's handler entry point, called with three arguments. *)
Definition component : Type := value -> (event -> M unit) -> string -> M unit.

(** What [require(id)] yields for a component file: its [subscribe]
    patterns and its [default] export. *)
Record module := mkModule {
  subscribe : option (list string);
  default : component
}.

(** The core after [initialize]: the bus given as [options.messageBus]
    (of which only [publish] is known) or else the in-memory one, and the
    registered components in the insertion order of [this.components]. *)
Record t := mkCore {
  provided_bus : option (event -> options -> M unit);
  components : list (string * module)
}.

(** The async function subscribed for one pattern of one component:
[[
   async (event, opts) => {
     if (this.eventMatchesPattern(event.type, eventPattern)) {
       await component(event.data, (e) => this.emit(e, opts), event.type);
     }
   }
]] *)
Definition subscription (this_emit : event -> options -> M unit)
    (id : string) (handler : component) (eventPattern : string)
  : InMemoryMessageBus.subscriber :=
  fun event opts =>
    if eventMatchesPattern (type event) eventPattern then
      emit_obs (CallComponent id (data event) opts (type event)) ;;
      handler (data event) (fun e => this_emit e opts) (type event)
    else ret tt.

(** [this.components.forEach((component, id) => ...)]: the subscribers
    pushed on the bus, one per component and pattern, in order. *)
Definition subscriptions (this_emit : event -> options -> M unit)
    (comps : list (string * module)) : InMemoryMessageBus.t :=
  flat_map
    (fun entry : string * module =>
       let (id, m) := entry in
       match subscribe m with
       | Some patterns => map (subscription this_emit id (default m)) patterns
       | None => []
       end)
    comps.

(** [async emit(event, options)]: [await this.messageBus.publish(event, options)].
    Handlers may emit in turn; [fuel] bounds the depth of such chains, and
    a chain that exceeds it is a computation that never settles. *)
Fixpoint emit (fuel : nat) (core : t) (e : event) (o : options) : M unit :=
  match fuel with
  | O => hang
  | S fuel' =>
      match provided_bus core with
      | Some publish => publish e o
      | None =>
          InMemoryMessageBus.publish
            (subscriptions (emit fuel' core) (components core)) e o
      end
  end.

End MotiaCore.

(** ** JavaScript [Map] with string keys

    Entries are kept in insertion order; [set] on a key already present
    replaces its value in place. *)

Module JsMap.

Definition t (V : Type) : Type := list (string * V).

Definition empty {V : Type} : t V := [].

Definition get {V : Type} (key : string) (m : t V) : option V := lookup key m.

Fixpoint set {V : Type} (key : string) (v : V) (m : t V) : t V :=
  match m with
  | [] => [(key, v)]
  | (k, old) :: rest =>
      if String.eqb k key then (key, v) :: rest else (k, old) :: set key v rest
  end.

Definition keys {V : Type} (m : t V) : list string := map fst m.

End JsMap.

(** ** MotiaServer *)

Module MotiaServer.

(** A traffic configuration, as returned by [defineTraffic]. *)
Record traffic_config := mkTraffic {
  path : option string;
  method : option string;
  transform : option (request -> outcome event);
  authorize : option (request -> outcome unit)
}.

(** [this.traffic] *)
Definition t : Type := JsMap.t traffic_config.

(** [new Map()] in the constructor *)
Definition create : t := JsMap.empty.

(** The key under which [registerTraffic] stores a configured path:
    [config.path.startsWith("/") ? config.path : `/${config.path}`] *)
Definition route_key (p : string) : string :=
  if Js.startsWith p "/" then p else String.append "/" p.

(** [registerTraffic(config)] *)
Definition registerTraffic (traffic : t) (config : traffic_config) : outcome t :=
  if negb (Js.truthy_string (path config))
     || negb (Js.truthy_string (method config))
     || negb (Js.defined (transform config))
  then Throw (mkError "Invalid traffic configuration")
  else
    let p := Js.string_of (path config) in
    Ret (JsMap.set (route_key p) config traffic).

(** Every stored route key begins with a slash. *)
Definition rooted (traffic : t) : Prop :=
  forall key, In key (JsMap.keys traffic) -> Js.startsWith key "/" = true.

(** The registration loop of [initialize]: [registerTraffic] on each
    configuration in turn; an exception ends the loop. *)
Fixpoint registerAll (traffic : t) (configs : list traffic_config) : outcome t :=
  match configs with
  | [] => Ret traffic
  | config :: rest =>
      match registerTraffic traffic config with
      | Ret traffic' => registerAll traffic' rest
      | failed => failed
      end
  end.

(** [{ error: error.message }] *)
Definition error_body (error : Error) : value :=
  VObject [("error", VString (message error))].

(** [res.status(code).json(body)] *)
Definition respond (code : nat) (body : value) : M unit :=
  emit_obs (Respond code body).

(** The options [handleRequest] passes to [core.emit]. *)
Definition emit_options (req : request) : options :=
  {| traceId := lookup "x-trace-id" (req_headers req);
     metadata := [("source", "http"); ("path", req_path req);
                  ("method", req_method req)] |}.

Section WithCore.

(** [this.core.emit] *)
Variable core_emit : event -> options -> M unit.

(** The authorization step of [handleRequest]: [true] when the request
    may proceed, [false] when the 401 response was sent and the function
    returns. *)
Definition authorization (config : traffic_config) (req : request) : M bool :=
  match authorize config with
  | Some check =>
      try_catch
        (emit_obs (CallAuthorize req) ;; await (check req) ;; ret true)
        (fun error => respond 401 (error_body error) ;; ret false)
  | None => ret true
  end.

(** The request passes the authorization step: there is no check, or the
    check is fulfilled. *)
Definition passes (config : traffic_config) (req : request) : Prop :=
  match authorize config with
  | Some check => exists v, check req = Ret v
  | None => True
  end.

(** What the authorization step logs: the call of the check, if any. *)
Definition authorization_log (config : traffic_config) (req : request) : list obs :=
  match authorize config with
  | Some _ => [CallAuthorize req]
  | None => []
  end.

(** [traffic.transform(req)] *)
Definition call_transform (config : traffic_config) (req : request) : M event :=
  match transform config with
  | Some f => emit_obs (CallTransform req) ;; await (f req)
  | None => throw (mkError "traffic.transform is not a function")
  end.

(** [async handleRequest(req, res)] *)
Definition handleRequest (traffic : t) (req : request) : M unit :=
  match JsMap.get (req_path req) traffic with
  | None => respond 404 (VObject [("error", VString "Traffic not found")])
  | Some config =>
      try_catch
        (authorized <- authorization config req ;;
         if authorized : bool then
           event <- call_transform config req ;;
           emit_obs (CallEmit event (emit_options req)) ;;
           core_emit event (emit_options req) ;;
           respond 200 (VObject [("success", VBool true);
                                 ("eventType", VString (type event))])
         else ret tt)
        (fun error => respond 400 (error_body error))
  end.

(** The Express route callback installed by [initialize]:
[[
   async (req, res) => {
     try { await this.handleRequest(req, res); }
     catch (error) { res.status(500).json({ error: error.message }); }
   }
]] *)
Definition route (traffic : t) (req : request) : M unit :=
  try_catch (handleRequest traffic req)
            (fun error => respond 500 (error_body error)).

End WithCore.

End MotiaServer.

(** ** MotiaScheduler *)

Module MotiaScheduler.

(** A schedule definition: the default export of a schedule file. *)
Record schedule := mkSchedule {
  interval : string;
  eventType : string
}.

(** A timer created by [setInterval]: its period in milliseconds and the
    schedule whose event its callback emits. *)
Record timer := mkTimer {
  period : Z;
  timer_schedule : string;
  timer_eventType : string
}.

(** The scheduler and the timers it started: [this.schedules],
    [this.activeJobs] (the handle returned by [setInterval] for each id),
    the live timers by handle, and the next handle. *)
Record t := mkScheduler {
  schedules : JsMap.t schedule;
  activeJobs : JsMap.t nat;
  timers : list (nat * timer);
  next_handle : nat
}.

(** [constructor()] *)
Definition create : t :=
  {| schedules := JsMap.empty; activeJobs := JsMap.empty;
     timers := []; next_handle := 0 |}.

(** [schedule.match(/^(\d+)(s|m|h|d)$/)]: the two captured groups. *)
Definition timeRegex_match (s : string) : option (string * string) :=
  let n := String.length s in
  let value := String.substring 0 (n - 1) s in
  let unit := String.substring (n - 1) 1 s in
  if negb (String.eqb value "") && Js.all_digits value
     && (String.eqb unit "s" || String.eqb unit "m"
         || String.eqb unit "h" || String.eqb unit "d")
  then Some (value, unit) else None.

(** [parseSchedule(schedule)]: the interval in milliseconds. *)
Definition parseSchedule (s : string) : outcome Z :=
  match timeRegex_match s with
  | Some (value, unit) =>
      let num := Js.parseInt value in
      if String.eqb unit "s" then Ret (num * 1000)%Z
      else if String.eqb unit "m" then Ret (num * 60 * 1000)%Z
      else if String.eqb unit "h" then Ret (num * 60 * 60 * 1000)%Z
      else if String.eqb unit "d" then Ret (num * 24 * 60 * 60 * 1000)%Z
      else Ret 0%Z
  | None =>
      if Nat.eqb (List.length (Js.split " " s)) 5 then Ret (60 * 60 * 1000)%Z
      else Throw (mkError (String.append "Invalid schedule format: " s))
  end.

(** One round of the [forEach] body of [start] once the interval is
    parsed: [setInterval] creates a timer, [this.activeJobs.set(id, job)]. *)
Definition activate (id : string) (sch : schedule) (ms : Z) (s : t) : t :=
  {| schedules := schedules s;
     activeJobs := JsMap.set id (next_handle s) (activeJobs s);
     timers := timers s ++ [(next_handle s, mkTimer ms id (eventType sch))];
     next_handle := S (next_handle s) |}.

(** [this.schedules.forEach((schedule, id) => ...)]: an exception thrown
    by [parseSchedule] leaves the loop, and [start], at once. *)
Fixpoint start_each (entries : list (string * schedule)) (s : t) : outcome unit * t :=
  match entries with
  | [] => (Ret tt, s)
  | (id, sch) :: rest =>
      match parseSchedule (interval sch) with
      | Ret ms => start_each rest (activate id sch ms s)
      | Throw e => (Throw e, s)
      | Hang => (Hang, s)
      end
  end.

(** [start()] *)
Definition start (s : t) : outcome unit * t := start_each (schedules s) s.

(** [stop()]: [clearInterval] on every active job, then
    [this.activeJobs.clear()]. *)
Definition stop (s : t) : t :=
  {| schedules := schedules s;
     activeJobs := JsMap.empty;
     timers := filter (fun entry : nat * timer =>
                         negb (existsb (fun job : string * nat =>
                                          Nat.eqb (snd job) (fst entry))
                                       (activeJobs s)))
                      (timers s);
     next_handle := next_handle s |}.

(** What a timer's callback passes to [core.emit] on a tick at time [now]
    (an ISO 8601 string). *)
Definition tick (now : string) (tm : timer) : event * options :=
  ({| type := timer_eventType tm;
      data := VObject [("scheduledAt", VString now);
                       ("scheduleId", VString (timer_schedule tm))] |},
   {| traceId := None;
      metadata := [("source", "scheduler"); ("scheduleId", timer_schedule tm)] |}).

End MotiaScheduler.

(** ** createServer: the API step handler of the TypeScript server *)

Module ApiServer.

(** [ApiRequest] *)
Record ApiRequest := mkApiRequest {
  body : value;
  headers : list (string * string);
  pathParams : list (string * string);
  queryParams : list (string * string)
}.

(** What an API handler resolves to. *)
Record ApiResponse := mkApiResponse {
  status : nat;
  response_headers : option (list (string * string));
  response_body : value
}.

(** An Express request as [asyncHandler] reads it. *)
Record Request := mkRequest {
  req_path : string;
  req_body : value;
  req_headers : list (string * string);
  req_params : list (string * string);
  req_query : list (string * string)
}.

(** [ApiRouteHandler]: called with the request and the context
    [{ emit, state, logger, traceId }], of which [emit] and [traceId] are
    modelled. *)
Definition ApiRouteHandler : Type :=
  ApiRequest -> (event -> M unit) -> string -> M ApiResponse.

(** An API step: its file and the [handler] export found there. *)
Record Step := mkStep {
  filePath : string;
  handler : ApiRouteHandler
}.

(** The source of [crypto.randomUUID()]: the identifiers it will return,
    and how many were drawn. *)
Record entropy := mkEntropy {
  uuid_at : nat -> string;
  drawn : nat
}.

(** [randomUUID()] *)
Definition randomUUID (g : entropy) : string * entropy :=
  (uuid_at g (drawn g), {| uuid_at := uuid_at g; drawn := S (drawn g) |}).

(** [async ({ data, type }) => await eventManager.emit({ data, type, traceId, flows, logger }, step.filePath)] *)
Definition emit_with (traceId : string) (flows : list string) (step : Step)
  : event -> M unit :=
  fun e => emit_obs (EventManagerEmit e traceId flows (filePath step)).

(** [if (result.headers) Object.entries(result.headers).forEach(([key, value]) => res.setHeader(key, value))] *)
Definition set_headers (hs : option (list (string * string))) : M unit :=
  match hs with
  | Some entries =>
      (flat_map (fun kv : string * string => [SetHeader (fst kv) (snd kv)]) entries,
       Ret tt)
  | None => ret tt
  end.

(** [asyncHandler(step, flows)(req, res)] *)
Definition asyncHandler (step : Step) (flows : list string)
    (g : entropy) (req : Request) : M unit * entropy :=
  let (traceId, g') := randomUUID g in
  let request := {| body := req_body req; headers := req_headers req;
                    pathParams := req_params req; queryParams := req_query req |} in
  (emit_obs (RandomUUID traceId) ;;
   try_catch
     (result <- handler step request (emit_with traceId flows step) traceId ;;
      set_headers (response_headers result) ;;
      emit_obs (Respond (status result) (response_body result)))
     (fun error =>
        emit_obs (ConsoleLog error) ;;
        emit_obs (Respond 500 (VObject [("error", VString "Internal server error")]))),
   g').

(** A handler that emits the events [evs] in order, awaiting each
    [emit], and then answers [resp]. *)
Fixpoint emit_all (emitFn : event -> M unit) (evs : list event) : M unit :=
  match evs with
  | [] => ret tt
  | e :: rest => emitFn e ;; emit_all emitFn rest
  end.

Definition scripted (evs : list event) (resp : ApiResponse) : ApiRouteHandler :=
  fun _ emitFn _ => emit_all emitFn evs ;; ret resp.

End ApiServer.

(** ** Notions taken from the specification's wording *)

Module Spec.

(** The trace id the specification asks the HTTP trigger to attach: the
    inbound trace header when the request carries one, else a newly
    minted id. *)
Definition trace_id (inbound : option string) (minted : string) : string :=
  match inbound with
  | Some propagated => propagated
  | None => minted
  end.

(** A token: a string without a space. *)
Fixpoint no_space (s : string) : bool :=
  match s with
  | EmptyString => true
  | String c rest => negb (Ascii.eqb c " ") && no_space rest
  end.

(** Five tokens separated by single spaces. *)
Definition five_tokens (s : string) : Prop :=
  exists t1 t2 t3 t4 t5 : string,
    no_space t1 = true /\ no_space t2 = true /\ no_space t3 = true /\
    no_space t4 = true /\ no_space t5 = true /\
    s = String.concat " " [t1; t2; t3; t4; t5].

(** The duration grammar [<integer><unit>], unit one of s, m, h, d. *)
Definition duration (s : string) : Prop :=
  exists digits unit : string,
    digits <> EmptyString /\ Js.all_digits digits = true /\
    In unit ["s"; "m"; "h"; "d"] /\
    s = String.append digits unit.

End Spec.

(** ** Concrete scenarios used to exercise the model *)

Module Scenarios.

(** A component that reports its third argument by emitting it. *)
Definition probe : MotiaCore.component :=
  fun _ emitFn third => emitFn {| type := "probe.saw"; data := VString third |}.

Definition probe_core : MotiaCore.t :=
  MotiaCore.mkCore None
    [("./steps/probe", MotiaCore.mkModule (Some ["order.created"]) probe)].

(** A core without components, and one whose provided bus rejects. *)
Definition quiet_core : MotiaCore.t := MotiaCore.mkCore None [].


(** Two traffic configurations for POST /orders, and a guarded one. *)
Definition orders_first : MotiaServer.traffic_config :=
  MotiaServer.mkTraffic (Some "/orders") (Some "POST")
    (Some (fun req => Ret {| type := "orders.first"; data := req_body req |})) None.

Definition orders_second : MotiaServer.traffic_config :=
  MotiaServer.mkTraffic (Some "/orders") (Some "POST")
    (Some (fun req => Ret {| type := "orders.second"; data := req_body req |})) None.


Definition relative_path : MotiaServer.traffic_config :=
  MotiaServer.mkTraffic (Some "orders/new") (Some "POST")
    (Some (fun req => Ret {| type := "orders.new"; data := req_body req |})) None.


Definition post_orders : request :=
  {| req_path := "/orders"; req_method := "POST"; req_headers := [];
     req_body := VString "o-1" |}.

Definition post_orders_traced : request :=
  {| req_path := "/orders"; req_method := "POST";
     req_headers := [("x-trace-id", "abc")]; req_body := VString "o-1" |}.


(** An API step whose handler emits one event and answers 200. *)
Definition api_step : ApiServer.Step :=
  ApiServer.mkStep "./steps/api.step"
    (fun request emitFn _ =>
       emitFn {| type := "api.called"; data := ApiServer.body request |} ;;
       ret (ApiServer.mkApiResponse 200 None (VString "ok"))).

Definition api_request_traced : ApiServer.Request :=
  ApiServer.mkRequest "/api" (VString "o-1") [("x-trace-id", "abc")] [] [].

Definition uuids : ApiServer.entropy :=
  ApiServer.mkEntropy (fun _ => "6f1c2d3e-minted") 0.


End Scenarios.

(** ** MotiaCore: loading components *)

Module MotiaCoreRegistry.

(** [path.replace(/^(\.?\/)?src\//, "./")]: a leading [src/], [./src/] or
    [/src/] becomes [./]; any other path is left as it is. *)
Definition replace_src (path : string) : string :=
  if Js.startsWith path "./src/" then
    String.append "./" (Js.slice path 6 (Z.of_nat (String.length path)))
  else if Js.startsWith path "/src/" then
    String.append "./" (Js.slice path 5 (Z.of_nat (String.length path)))
  else if Js.startsWith path "src/" then
    String.append "./" (Js.slice path 4 (Z.of_nat (String.length path)))
  else path.

(** [path.replace(/\.js$/, "")] *)
Definition strip_js (path : string) : string :=
  if Js.endsWith path ".js" then Js.slice path 0 (-3) else path.

(** [fixedPath] of [registerComponent] *)
Definition fixedPath (path : string) : string := strip_js (replace_src path).

(** [`Error registering component at ${path}:`] *)
Definition registration_label (path : string) : string :=
  String.append "Error registering component at " (String.append path ":").

(** [async registerComponent(path)], given what [require] yields for each
    module path (the exports, or the exception thrown while loading).  The
    table keeps, under the fixed path, the module whose [default] export
    the source stores and whose [subscribe] it reads again when
    subscribing. *)
Definition registerComponent (require : string -> outcome MotiaCore.module)
    (comps : JsMap.t MotiaCore.module) (path : string)
  : M (JsMap.t MotiaCore.module) :=
  try_catch
    (component <- await (require (fixedPath path)) ;;
     match MotiaCore.subscribe component with
     | Some _ => ret (JsMap.set (fixedPath path) component comps)
     | None => ret comps
     end)
    (fun error => emit_obs (ConsoleError (registration_label path) error) ;; ret comps).

(** [for (const file of componentFiles) this.registerComponent(file)] *)
Fixpoint registerComponents (require : string -> outcome MotiaCore.module)
    (comps : JsMap.t MotiaCore.module) (files : list string)
  : M (JsMap.t MotiaCore.module) :=
  match files with
  | [] => ret comps
  | file :: rest =>
      comps' <- registerComponent require comps file ;;
      registerComponents require comps' rest
  end.

(** The part of [initialize] that follows the discovery of the component
    files: the table is reset, every file is registered, and the core uses
    [options.messageBus] or else a new in-memory bus. *)
Definition initialize (require : string -> outcome MotiaCore.module)
    (messageBus : option (event -> options -> M unit)) (componentFiles : list string)
  : M MotiaCore.t :=
  comps <- registerComponents require JsMap.empty componentFiles ;;
  ret (MotiaCore.mkCore messageBus comps).

End MotiaCoreRegistry.

(** ** MotiaTest: durations of load tests *)

Module MotiaTest.


End MotiaTest.

(** ** createServer: installing the routes of the API steps *)

Module ApiRoutes.

(** [step.config] of an API step *)
Record ApiConfig := mkApiConfig {
  method : string;
  path : string;
  flows : list string
}.

Record ApiStep := mkApiStep {
  step : ApiServer.Step;
  config : ApiConfig
}.

Inductive verb := POST | GET.

(** A route installed on the Express app by [app.post] or [app.get]:
    [asyncHandler(step, flows)] under a path. *)
Record Route := mkRoute {
  route_verb : verb;
  route_path : string;
  route_step : ApiServer.Step;
  route_flows : list string
}.

(** The route a step is installed as, when its method is supported. *)
Definition route_of (s : ApiStep) : option Route :=
  if String.eqb (method (config s)) "POST" then
    Some (mkRoute POST (path (config s)) (step s) (flows (config s)))
  else if String.eqb (method (config s)) "GET" then
    Some (mkRoute GET (path (config s)) (step s) (flows (config s)))
  else None.

(** [for (const step of apiSteps) { ... }]: the routes of the app after
    the loop, and how the loop ended. *)
Fixpoint register_routes (apiSteps : list ApiStep) (app : list Route)
  : outcome unit * list Route :=
  match apiSteps with
  | [] => (Ret tt, app)
  | s :: rest =>
      match route_of s with
      | Some r => register_routes rest (app ++ [r])
      | None =>
          (Throw (mkError (String.append "Unsupported method: " (method (config s)))),
           app)
      end
  end.

End ApiRoutes.

(** ** Notions used to state properties of the HTTP trigger *)

Module ServerNotions.

(** The configuration that serves a route key after the configurations
    [configs] were registered in order: the last one stored under it. *)
Definition active_for (key : string) (configs : list MotiaServer.traffic_config)
  : option MotiaServer.traffic_config :=
  find (fun c => String.eqb (MotiaServer.route_key (Js.string_of (MotiaServer.path c))) key)
       (rev configs).

(** A configuration [registerTraffic] accepts. *)
Definition valid (c : MotiaServer.traffic_config) : bool :=
  Js.truthy_string (MotiaServer.path c) && Js.truthy_string (MotiaServer.method c)
  && Js.defined (MotiaServer.transform c).

Definition is_response (x : obs) : bool :=
  match x with Respond _ _ => true | _ => false end.

(** The responses written during a computation. *)
Definition responses (l : list obs) : list obs := filter is_response l.

End ServerNotions.

(** ** Notions used to state properties of the scheduler *)

Module SchedulerNotions.

(** Every schedule of the list has an interval that parses. *)
Definition all_parse (entries : list (string * MotiaScheduler.schedule)) : Prop :=
  forall entry, In entry entries ->
    exists ms, MotiaScheduler.parseSchedule (MotiaScheduler.interval (snd entry)) = Ret ms.

(** The period of a schedule whose interval parses. *)
Definition period_of (sch : MotiaScheduler.schedule) : Z :=
  match MotiaScheduler.parseSchedule (MotiaScheduler.interval sch) with
  | Ret ms => ms
  | _ => 0%Z
  end.

(** The schedules of a list paired with consecutive timer handles. *)
Definition numbered (h : nat) (entries : list (string * MotiaScheduler.schedule))
  : list ((string * MotiaScheduler.schedule) * nat) :=
  combine entries (seq h (length entries)).

(** The jobs and the timers one round of [start] creates from handle [h]. *)
Definition new_jobs (h : nat) (entries : list (string * MotiaScheduler.schedule))
  : list (string * nat) :=
  map (fun p => (fst (fst p), snd p)) (numbered h entries).

Definition new_timers (h : nat) (entries : list (string * MotiaScheduler.schedule))
  : list (nat * MotiaScheduler.timer) :=
  map (fun p => (snd p,
                 MotiaScheduler.mkTimer (period_of (snd (fst p))) (fst (fst p))
                                        (MotiaScheduler.eventType (snd (fst p)))))
      (numbered h entries).

(** [this.activeJobs.set(id, job)] for each job in turn. *)
Definition set_jobs (jobs : list (string * nat)) (m : JsMap.t nat) : JsMap.t nat :=
  fold_left (fun acc job => JsMap.set (fst job) (snd job) acc) jobs m.

End SchedulerNotions.

(** ** Further scenarios *)

Module Fixtures.

(** A component that always throws. *)
Definition crashing : MotiaCore.component :=
  fun _ _ _ => throw (mkError "handler crashed").

Definition crashing_core : MotiaCore.t :=
  MotiaCore.mkCore None
    [("./steps/crash", MotiaCore.mkModule (Some ["orders.first"]) crashing)].

(** A module loader that knows one component file. *)
Definition loader (path : string) : outcome MotiaCore.module :=
  if String.eqb path "./workflows/orders/components/notify" then
    Ret (MotiaCore.mkModule (Some ["order.*"]) Scenarios.probe)
  else Throw (mkError (String.append "Cannot find module " path)).

(** Three schedules that parse. *)
Definition three_jobs : MotiaScheduler.t :=
  MotiaScheduler.mkScheduler
    [("./jobs/report", MotiaScheduler.mkSchedule "2h" "jobs.report");
     ("./jobs/cleanup", MotiaScheduler.mkSchedule "30s" "jobs.cleanup");
     ("./jobs/nightly", MotiaScheduler.mkSchedule "0 3 * * *" "jobs.nightly")]
    JsMap.empty [] 0.

(** An API step whose handler throws. *)
Definition failing_api_step : ApiServer.Step :=
  ApiServer.mkStep "./steps/fail.step"
    (fun _ _ _ => throw (mkError "database password rejected")).


End Fixtures.

(** * Properties *)

(** ** The asynchronous-computation layer *)

Lemma bind_ret_l {A B} (a : A) (k : A -> M B) : bind (ret a) k = k a.
Proof. unfold bind, ret; destruct (k a); reflexivity. Qed.

Lemma bind_ret_r {A} (m : M A) : bind m ret = m.
Proof.
  destruct m as [l [a | e | ]]; simpl; try reflexivity.
  now rewrite app_nil_r.
Qed.

Lemma bind_assoc {A B C} (m : M A) (k : A -> M B) (h : B -> M C) :
  bind (bind m k) h = bind m (fun a => bind (k a) h).
Proof.
  destruct m as [l [a | e | ]]; simpl; try reflexivity.
  destruct (k a) as [l' [b | e | ]]; simpl; try reflexivity.
  destruct (h b) as [l'' r]; now rewrite app_assoc.
Qed.

Lemma try_catch_ret {A} (a : A) (h : Error -> M A) : try_catch (ret a) h = ret a.
Proof. reflexivity. Qed.

Lemma try_catch_throw {A} (e : Error) (h : Error -> M A) : try_catch (throw e) h = h e.
Proof. unfold try_catch, throw; destruct (h e); reflexivity. Qed.

Lemma actions_bind {A B} (m : M A) (k : A -> M B) (a : A) :
  result m = Ret a -> actions (bind m k) = actions m ++ actions (k a).
Proof.
  destruct m as [l r]; simpl; intros ->.
  unfold bind, actions; destruct (k a); reflexivity.
Qed.

Lemma result_bind {A B} (m : M A) (k : A -> M B) (a : A) :
  result m = Ret a -> result (bind m k) = result (k a).
Proof.
  destruct m as [l r]; simpl; intros ->.
  unfold bind, result; destruct (k a); reflexivity.
Qed.

Lemma actions_bind_incl {A B} (m : M A) (k : A -> M B) (x : obs) :
  In x (actions m) -> In x (actions (bind m k)).
Proof.
  destruct m as [l [a | e | ]]; simpl; intro H; unfold bind, actions; auto.
  destruct (k a); simpl; apply in_or_app; auto.
Qed.

(** ** InMemoryMessageBus: one fan-out round *)

Module BusFacts.
Import InMemoryMessageBus.

Lemma caught_actions (p : M unit) (x : obs) :
  In x (actions p) -> In x (actions (caught p)).
Proof.
  destruct p as [l [[] | e | ]]; simpl; auto.
  intro H; apply in_or_app; auto.
Qed.

Lemma caught_result (p : M unit) :
  result (caught p) = match result p with Throw _ => Ret tt | r => r end.
Proof. destruct p as [l [[] | e | ]]; reflexivity. Qed.

Lemma caught_logs_rejection (p : M unit) (err : Error) :
  result p = Throw err ->
  In (ConsoleError "Error in subscriber:" err) (actions (caught p)).
Proof.
  destruct p as [l [[] | e | ]]; simpl; try discriminate.
  intros [= ->]; apply in_or_app; right; left; reflexivity.
Qed.

Lemma fan_out_cons (k : nat) (s : subscriber) (rest : list subscriber) e o :
  fan_out k (s :: rest) e o =
  (CallSubscriber k e o :: actions (caught (s e o)) ++ fst (fan_out (S k) rest e o),
   result (caught (s e o)) :: snd (fan_out (S k) rest e o)).
Proof. simpl; destruct (fan_out (S k) rest e o); reflexivity. Qed.

Lemma publish_actions (bus : t) e o :
  actions (publish bus e o) = fst (fan_out 0 bus e o).
Proof. unfold publish; destruct (fan_out 0 bus e o); reflexivity. Qed.

Lemma publish_result (bus : t) e o :
  result (publish bus e o) = promise_all (snd (fan_out 0 bus e o)).
Proof. unfold publish; destruct (fan_out 0 bus e o); reflexivity. Qed.

(** Every subscriber of the list is called, with the published event. *)
Lemma fan_out_calls (subs : list subscriber) e o :
  forall k i, i < length subs ->
    In (CallSubscriber (k + i) e o) (fst (fan_out k subs e o)).
Proof.
  induction subs as [| s rest IH]; intros k i Hi; simpl in Hi; [lia |].
  rewrite fan_out_cons; simpl.
  destruct i as [| i].
  - left; f_equal; lia.
  - right; apply in_or_app; right.
    replace (k + S i) with (S k + i) by lia.
    apply IH; lia.
Qed.

(** What a subscriber does when called is part of the round. *)
Lemma fan_out_runs (subs : list subscriber) e o (s : subscriber) (x : obs) :
  In s subs -> In x (actions (caught (s e o))) ->
  forall k, In x (fst (fan_out k subs e o)).
Proof.
  induction subs as [| s' rest IH]; intros Hs Hx k; [destruct Hs |].
  rewrite fan_out_cons; simpl; right; apply in_or_app.
  destruct Hs as [-> | Hs]; [left; exact Hx | right; apply IH; assumption].
Qed.

(** A round whose subscribers all settle is fulfilled. *)
Lemma fan_out_fulfilled (subs : list subscriber) e o :
  (forall s, In s subs -> result (s e o) <> Hang) ->
  forall k, promise_all (snd (fan_out k subs e o)) = Ret tt.
Proof.
  induction subs as [| s rest IH]; intros Hsettle k; [reflexivity |].
  rewrite fan_out_cons; simpl snd; simpl promise_all.
  rewrite IH by (intros s' Hs'; apply Hsettle; right; exact Hs').
  rewrite caught_result.
  specialize (Hsettle s (or_introl eq_refl)).
  destruct (result (s e o)) as [[] | err | ]; [reflexivity | reflexivity | contradiction].
Qed.

(** A round never rejects, whatever its subscribers do. *)
Lemma fan_out_never_rejects (subs : list subscriber) e o :
  forall k err, promise_all (snd (fan_out k subs e o)) <> Throw err.
Proof.
  induction subs as [| s rest IH]; intros k err; [discriminate |].
  rewrite fan_out_cons; simpl snd; simpl promise_all.
  rewrite caught_result.
  specialize (IH (S k)).
  destruct (result (s e o)) as [[] | e' | ];
    destruct (promise_all (snd (fan_out (S k) rest e o))) as [[] | e'' | ] eqn:E;
    try discriminate; exfalso; eapply IH; reflexivity.
Qed.

(** C5. Publishing to a list of subscribers one of which rejects: every
    subscriber, the ones after the failing one included, is still called
    with the same event and options and runs; the rejection is logged; and
    [publish] is fulfilled, provided the other subscribers settle. *)
Theorem publish_isolates_failing_subscriber
    (before after : list subscriber) (failing : subscriber)
    (e : event) (o : options) (err : Error) :
  result (failing e o) = Throw err ->
  (forall s, In s (before ++ after) -> result (s e o) <> Hang) ->
  result (publish (before ++ failing :: after) e o) = Ret tt
  /\ (forall i, i < length (before ++ failing :: after) ->
        In (CallSubscriber i e o)
           (actions (publish (before ++ failing :: after) e o)))
  /\ (forall s x, In s (before ++ failing :: after) -> In x (actions (s e o)) ->
        In x (actions (publish (before ++ failing :: after) e o)))
  /\ In (ConsoleError "Error in subscriber:" err)
        (actions (publish (before ++ failing :: after) e o)).
Proof.
  intros Hfail Hothers.
  rewrite publish_result, publish_actions.
  repeat split.
  - apply fan_out_fulfilled.
    intros s Hs; apply in_app_or in Hs.
    destruct Hs as [Hs | [<- | Hs]].
    + apply Hothers, in_or_app; auto.
    + rewrite Hfail; discriminate.
    + apply Hothers, in_or_app; auto.
  - intros i Hi; apply (fan_out_calls _ e o 0 i Hi).
  - intros s x Hs Hx.
    apply (fan_out_runs _ e o s x Hs).
    apply caught_actions, Hx.
  - apply (fan_out_runs _ e o failing).
    + apply in_or_app; right; left; reflexivity.
    + apply caught_logs_rejection, Hfail.
Qed.

(** An instance of C5: three subscribers, the middle one rejecting. *)
Lemma publish_isolates_failing_subscriber_witness :
  let ok : subscriber := fun _ _ => ret tt in
  let failing : subscriber := fun _ _ => throw (mkError "boom") in
  let e := {| type := "order.created"; data := VString "o-1" |} in
  let o := {| traceId := Some "t-1"; metadata := [] |} in
  result (publish ([ok] ++ failing :: [ok]) e o) = Ret tt
  /\ (forall i, i < 3 -> In (CallSubscriber i e o)
                           (actions (publish ([ok] ++ failing :: [ok]) e o))).
Proof.
  intros ok failing e o.
  destruct (publish_isolates_failing_subscriber [ok] [ok] failing e o (mkError "boom"))
    as (Hres & Hcalls & _).
  - reflexivity.
  - intros s [<- | [<- | []]]; discriminate.
  - split; [exact Hres | exact Hcalls].
Defined.

End BusFacts.

(** ** JavaScript strings: facts about the primitives *)

Module JsFacts.

Lemma length_append (a b : string) :
  String.length (String.append a b) = String.length a + String.length b.
Proof. induction a as [| c a IH]; simpl; [reflexivity | now rewrite IH]. Qed.

Lemma substring_all (a : string) :
  String.substring 0 (String.length a) a = a.
Proof. induction a as [| c a IH]; simpl; [reflexivity | now rewrite IH]. Qed.

Lemma substring_append_left (a b : string) :
  String.substring 0 (String.length a) (String.append a b) = a.
Proof. induction a as [| c a IH]; simpl; [now destruct b | now rewrite IH]. Qed.

Lemma substring_append_right (a b : string) (m : nat) :
  String.substring (String.length a) m (String.append a b) = String.substring 0 m b.
Proof. induction a as [| c a IH]; simpl; [reflexivity | exact IH]. Qed.

Lemma prefix_append (a b : string) : String.prefix a (String.append a b) = true.
Proof.
  induction a as [| c a IH]; simpl; [now destruct b |].
  destruct (ascii_dec c c); [exact IH | contradiction].
Qed.

Lemma startsWith_append (a b : string) : Js.startsWith (String.append a b) a = true.
Proof. apply prefix_append. Qed.

Lemma endsWith_append (a suffix : string) :
  Js.endsWith (String.append a suffix) suffix = true.
Proof.
  unfold Js.endsWith; rewrite length_append.
  replace (Nat.leb (String.length suffix) (String.length a + String.length suffix))
    with true by (symmetry; apply Nat.leb_le; lia).
  replace (String.length a + String.length suffix - String.length suffix)
    with (String.length a) by lia.
  rewrite substring_append_right, substring_all; apply String.eqb_refl.
Qed.

Lemma slice_drop_suffix (a suffix : string) :
  Js.slice (String.append a suffix) 0 (- Z.of_nat (String.length suffix)) = a
  \/ suffix = EmptyString.
Proof.
  destruct suffix as [| c suffix]; [right; reflexivity | left].
  unfold Js.slice, Js.slice_index; rewrite length_append.
  replace (0 <? 0)%Z with false by reflexivity.
  replace (- Z.of_nat (String.length (String c suffix)) <? 0)%Z with true
    by (symmetry; apply Z.ltb_lt; simpl String.length; lia).
  replace (Z.to_nat (Z.max (Z.of_nat (String.length a + String.length (String c suffix))
                            + - Z.of_nat (String.length (String c suffix))) 0))
    with (String.length a) by lia.
  simpl Z.to_nat; rewrite Nat.min_0_l, Nat.sub_0_r.
  apply substring_append_left.
Qed.

Lemma slice_drop_wildcard (pre : string) :
  Js.slice (String.append pre ".*") 0 (-2) = pre.
Proof.
  destruct (slice_drop_suffix pre ".*") as [H | H]; [exact H | discriminate].
Qed.

End JsFacts.

(** ** MotiaCore: pattern matching and component invocation *)

Module CoreFacts.
Import MotiaCore.

Lemma eventMatchesPattern_same (eventType : string) :
  eventMatchesPattern eventType eventType = true.
Proof.
  unfold eventMatchesPattern.
  destruct (String.eqb eventType "*"); [reflexivity |].
  now rewrite String.eqb_refl.
Qed.

Lemma eventMatchesPattern_star (eventType : string) :
  eventMatchesPattern eventType "*" = true.
Proof. reflexivity. Qed.

Lemma eventMatchesPattern_other_shape (eventType pattern : string) :
  pattern <> "*" -> pattern <> eventType -> Js.endsWith pattern ".*" = false ->
  eventMatchesPattern eventType pattern = false.
Proof.
  intros Hstar Hsame Hshape; unfold eventMatchesPattern.
  apply String.eqb_neq in Hstar; apply String.eqb_neq in Hsame.
  now rewrite Hstar, Hsame, Hshape.
Qed.

(** A suffix wildcard matches every type that continues the text before
    [.*], whether or not a dot comes next. *)
Lemma eventMatchesPattern_wildcard (pre rest : string) :
  eventMatchesPattern (String.append pre rest) (String.append pre ".*") = true.
Proof.
  unfold eventMatchesPattern.
  destruct (String.eqb (String.append pre ".*") "*"); [reflexivity |].
  destruct (String.eqb (String.append pre ".*") (String.append pre rest)); [reflexivity |].
  rewrite JsFacts.endsWith_append, JsFacts.slice_drop_wildcard.
  apply JsFacts.startsWith_append.
Qed.

(** C1. The matcher agrees with the specification on equal strings, on
    the literal wildcard and on patterns of any other shape, but a suffix
    wildcard is compared without its separating dot: [order.*] matches
    [orderline.created], which the specification's rule excludes. *)
Theorem eventMatchesPattern_drops_separating_dot :
  eventMatchesPattern "order.created" "order.*" = true
  /\ eventMatchesPattern "orderline.created" "order.*" = true
  /\ spec_match "orderline.created" "order.*" = false
  /\ (forall pre rest : string,
        eventMatchesPattern (String.append pre rest) (String.append pre ".*") = true).
Proof.
  repeat split; try reflexivity.
  intros pre rest; apply eventMatchesPattern_wildcard.
Qed.

(** The subscriber registered for a pattern calls the component, when the
    event type matches, with the event's data, an [emit] bound to the
    options of the publish, and the event's type. *)
Lemma subscription_matching (this_emit : event -> options -> M unit)
    (id : string) (handler : component) (p : string) (e : event) (o : options) :
  eventMatchesPattern (type e) p = true ->
  subscription this_emit id handler p e o =
  (emit_obs (CallComponent id (data e) o (type e)) ;;
   handler (data e) (fun e' => this_emit e' o) (type e)).
Proof. intro H; unfold subscription; now rewrite H. Qed.

Lemma subscription_not_matching (this_emit : event -> options -> M unit)
    (id : string) (handler : component) (p : string) (e : event) (o : options) :
  eventMatchesPattern (type e) p = false ->
  subscription this_emit id handler p e o = ret tt.
Proof. intro H; unfold subscription; now rewrite H. Qed.

Lemma subscriptions_registered (this_emit : event -> options -> M unit)
    (comps : list (string * module)) (id : string) (m : module)
    (patterns : list string) (p : string) :
  In (id, m) comps -> subscribe m = Some patterns -> In p patterns ->
  In (subscription this_emit id (default m) p) (subscriptions this_emit comps).
Proof.
  intros Hin Hsub Hp; unfold subscriptions.
  apply in_flat_map; exists (id, m); split; [exact Hin |].
  rewrite Hsub; apply in_map; exact Hp.
Qed.

(** C4 (as the code has it). For every registered component, every
    pattern it subscribes to and every published event whose type matches
    the pattern, the core calls the handler with the event's data, an emit
    function bound to the options of the publish, and, as third argument,
    the event's type. *)
Theorem component_called_with_event_type
    (fuel : nat) (comps : list (string * module)) (id : string) (m : module)
    (patterns : list string) (p : string) (e : event) (o : options) :
  In (id, m) comps -> subscribe m = Some patterns -> In p patterns ->
  eventMatchesPattern (type e) p = true ->
  subscription (emit fuel (mkCore None comps)) id (default m) p e o =
    (emit_obs (CallComponent id (data e) o (type e)) ;;
     default m (data e) (fun e' => emit fuel (mkCore None comps) e' o) (type e))
  /\ In (CallComponent id (data e) o (type e))
        (actions (emit (S fuel) (mkCore None comps) e o)).
Proof.
  intros Hin Hsub Hp Hmatch; split.
  - apply subscription_matching, Hmatch.
  - simpl emit; rewrite BusFacts.publish_actions.
    eapply BusFacts.fan_out_runs.
    + eapply subscriptions_registered; eassumption.
    + apply BusFacts.caught_actions.
      rewrite subscription_matching by exact Hmatch.
      apply actions_bind_incl; left; reflexivity.
Qed.

(** An instance of C4's statement. *)
Lemma component_called_with_event_type_witness :
  In (CallComponent "./steps/probe" (VString "o-1")
        {| traceId := Some "trace-123"; metadata := [] |} "order.created")
     (actions (emit 2 Scenarios.probe_core
                 {| type := "order.created"; data := VString "o-1" |}
                 {| traceId := Some "trace-123"; metadata := [] |})).
Proof.
  apply (component_called_with_event_type 1 (components Scenarios.probe_core)
           "./steps/probe" (mkModule (Some ["order.created"]) Scenarios.probe)
           ["order.created"] "order.created"
           {| type := "order.created"; data := VString "o-1" |}
           {| traceId := Some "trace-123"; metadata := [] |}).
  - left; reflexivity.
  - reflexivity.
  - left; reflexivity.
  - reflexivity.
Defined.

(** C4 as stated fails: with trace id [trace-123] on the publish, the
    handler's third argument is [order.created], the event type. *)
Lemma component_third_argument_is_not_trace_id :
  let e := {| type := "order.created"; data := VString "o-1" |} in
  let o := {| traceId := Some "trace-123"; metadata := [] |} in
  actions (emit 2 Scenarios.probe_core e o) =
    [ CallSubscriber 0 e o;
      CallComponent "./steps/probe" (VString "o-1") o "order.created";
      CallSubscriber 0 {| type := "probe.saw"; data := VString "order.created" |} o ]
  /\ traceId o <> Some "order.created".
Proof. split; [reflexivity | discriminate]. Qed.

End CoreFacts.

(** ** JavaScript [Map]: lookup after update *)

Module JsMapFacts.

Lemma get_set_same {V : Type} (key : string) (v : V) (m : JsMap.t V) :
  JsMap.get key (JsMap.set key v m) = Some v.
Proof.
  induction m as [| [k old] rest IH]; simpl.
  - now rewrite String.eqb_refl.
  - destruct (String.eqb k key) eqn:E; simpl.
    + now rewrite String.eqb_refl.
    + now rewrite E.
Qed.

Lemma get_set_other {V : Type} (key key' : string) (v : V) (m : JsMap.t V) :
  key <> key' -> JsMap.get key' (JsMap.set key v m) = JsMap.get key' m.
Proof.
  intro Hne; induction m as [| [k old] rest IH]; simpl.
  - apply String.eqb_neq in Hne; now rewrite Hne.
  - destruct (String.eqb k key) eqn:E; simpl.
    + apply String.eqb_eq in E; subst k.
      apply String.eqb_neq in Hne; now rewrite Hne.
    + destruct (String.eqb k key'); [reflexivity | exact IH].
Qed.

Lemma keys_set {V : Type} (key : string) (v : V) (m : JsMap.t V) (x : string) :
  In x (JsMap.keys (JsMap.set key v m)) <-> x = key \/ In x (JsMap.keys m).
Proof.
  induction m as [| [k old] rest IH]; simpl.
  - intuition congruence.
  - destruct (String.eqb k key) eqn:E; simpl.
    + apply String.eqb_eq in E; subst k; intuition congruence.
    + rewrite IH; intuition congruence.
Qed.

(** Updating a key that is present keeps the keys and their order. *)
Lemma keys_set_present {V : Type} (key : string) (v : V) (m : JsMap.t V) :
  In key (JsMap.keys m) -> JsMap.keys (JsMap.set key v m) = JsMap.keys m.
Proof.
  induction m as [| [k old] rest IH]; simpl; [intros [] |].
  destruct (String.eqb k key) eqn:E; simpl.
  - apply String.eqb_eq in E; now subst k.
  - intros [H | H]; [apply String.eqb_neq in E; contradiction |].
    now rewrite IH.
Qed.

Lemma get_none_keys {V : Type} (key : string) (m : JsMap.t V) :
  JsMap.get key m = None <-> ~ In key (JsMap.keys m).
Proof.
  induction m as [| [k old] rest IH]; simpl; [tauto |].
  destruct (String.eqb k key) eqn:E.
  - apply String.eqb_eq in E; subst k; split; [discriminate | tauto].
  - apply String.eqb_neq in E; rewrite IH; tauto.
Qed.

End JsMapFacts.

(** ** MotiaServer: registration *)

Module RegistrationFacts.
Import MotiaServer.

(** Whether a configuration is accepted does not depend on the table. *)
Lemma registerTraffic_accepts (traffic traffic' : t) (config : traffic_config) (t1 : t) :
  registerTraffic traffic config = Ret t1 ->
  exists p, path config = Some p
            /\ registerTraffic traffic' config
               = Ret (JsMap.set (route_key p) config traffic').
Proof.
  unfold registerTraffic.
  destruct (path config) as [p |] eqn:Hp; [| discriminate].
  destruct (negb (Js.truthy_string (Some p)) || negb (Js.truthy_string (method config))
            || negb (Js.defined (transform config))); [discriminate |].
  intros _; exists p; split; reflexivity.
Qed.

Lemma registerTraffic_stores (traffic t1 : t) (config : traffic_config) (p : string) :
  path config = Some p -> registerTraffic traffic config = Ret t1 ->
  t1 = JsMap.set (route_key p) config traffic.
Proof.
  intros Hp H.
  destruct (registerTraffic_accepts traffic traffic config t1 H) as (p' & Hp' & H').
  congruence.
Qed.

(** C2 (as the code has it). When a second valid configuration is
    registered for a path already taken, the registration succeeds
    without any error, the set of routes is unchanged, and the second
    configuration replaces the first as the active one for that path. *)
Theorem registerTraffic_second_replaces_first
    (traffic t0 t1 : t) (first second : traffic_config) (p1 p2 : string) :
  path first = Some p1 -> path second = Some p2 ->
  route_key p1 = route_key p2 ->
  registerTraffic traffic first = Ret t1 ->
  registerTraffic create second = Ret t0 ->
  exists t2,
    registerTraffic t1 second = Ret t2
    /\ JsMap.get (route_key p1) t2 = Some second
    /\ JsMap.keys t2 = JsMap.keys t1.
Proof.
  intros Hp1 Hp2 Hkey Hfirst Hvalid.
  destruct (registerTraffic_accepts create t1 second t0 Hvalid) as (p & Hp & Hreg).
  assert (p = p2) by congruence; subst p.
  exists (JsMap.set (route_key p2) second t1); repeat split.
  - exact Hreg.
  - rewrite Hkey; apply JsMapFacts.get_set_same.
  - apply JsMapFacts.keys_set_present.
    rewrite (registerTraffic_stores traffic t1 first p1 Hp1 Hfirst), <- Hkey.
    apply JsMapFacts.keys_set; left; reflexivity.
Qed.

(** An instance of C2's statement: POST /orders registered twice. *)
Lemma registerTraffic_second_replaces_first_witness :
  exists t2,
    registerTraffic [("/orders", Scenarios.orders_first)] Scenarios.orders_second = Ret t2
    /\ JsMap.get "/orders" t2 = Some Scenarios.orders_second
    /\ JsMap.keys t2 = ["/orders"].
Proof.
  exact (registerTraffic_second_replaces_first create
           [("/orders", Scenarios.orders_second)] [("/orders", Scenarios.orders_first)]
           Scenarios.orders_first Scenarios.orders_second "/orders" "/orders"
           eq_refl eq_refl eq_refl eq_refl eq_refl).
Defined.

(** C2 as stated fails: the second registration for POST /orders raises
    no conflict, and a request to /orders is then served by the second
    configuration. *)
Lemma registerTraffic_no_conflict_error :
  registerAll create [Scenarios.orders_first; Scenarios.orders_second]
    = Ret [("/orders", Scenarios.orders_second)]
  /\ handleRequest (MotiaCore.emit 1 Scenarios.quiet_core)
       [("/orders", Scenarios.orders_second)] Scenarios.post_orders
     = ([ CallTransform Scenarios.post_orders;
          CallEmit {| type := "orders.second"; data := VString "o-1" |}
                   (emit_options Scenarios.post_orders);
          Respond 200 (VObject [("success", VBool true);
                                ("eventType", VString "orders.second")]) ],
        Ret tt).
Proof. split; reflexivity. Qed.

Lemma route_key_rooted (p : string) : Js.startsWith (route_key p) "/" = true.
Proof.
  unfold route_key; destruct (Js.startsWith p "/") eqn:E; [exact E |].
  apply (JsFacts.startsWith_append "/" p).
Qed.

Lemma route_key_unrooted (p : string) :
  Js.startsWith p "/" = false -> route_key p = route_key (String.append "/" p).
Proof.
  intro H; unfold route_key; rewrite H.
  now rewrite (JsFacts.startsWith_append "/" p).
Qed.

Lemma registerTraffic_rooted (traffic traffic' : t) (config : traffic_config) :
  rooted traffic -> registerTraffic traffic config = Ret traffic' -> rooted traffic'.
Proof.
  intros Hroot Hreg key Hkey.
  destruct (registerTraffic_accepts traffic traffic config traffic' Hreg) as (p & _ & H).
  rewrite Hreg in H; injection H as ->.
  apply JsMapFacts.keys_set in Hkey; destruct Hkey as [-> | Hkey].
  - apply route_key_rooted.
  - apply Hroot, Hkey.
Qed.

Lemma registerAll_rooted (configs : list traffic_config) :
  forall traffic traffic',
    rooted traffic -> registerAll traffic configs = Ret traffic' -> rooted traffic'.
Proof.
  induction configs as [| config rest IH]; simpl; intros traffic traffic' Hroot H.
  - now injection H as <-.
  - destruct (registerTraffic traffic config) as [t1 | e | ] eqn:E; try discriminate.
    eapply IH; [| exact H].
    eapply registerTraffic_rooted; eassumption.
Qed.

(** C10. [registerTraffic] stores a configuration under its path with a
    slash put in front unless the path already starts with one; [foo] and
    [/foo] are therefore the same route, and every key of the table built
    by registrations begins with a slash. *)
Theorem registerTraffic_normalizes_path :
  route_key "foo" = "/foo" /\ route_key "/foo" = "/foo"
  /\ (forall p, Js.startsWith p "/" = true -> route_key p = p)
  /\ (forall p, Js.startsWith p "/" = false ->
        route_key p = String.append "/" p
        /\ route_key p = route_key (String.append "/" p))
  /\ (forall traffic config p,
        path config = Some p ->
        forall traffic', registerTraffic traffic config = Ret traffic' ->
        JsMap.get (route_key p) traffic' = Some config)
  /\ (forall traffic config traffic',
        rooted traffic -> registerTraffic traffic config = Ret traffic' ->
        rooted traffic')
  /\ (forall configs traffic,
        registerAll create configs = Ret traffic -> rooted traffic).
Proof.
  split; [reflexivity |]. split; [reflexivity |].
  split; [intros p H; unfold route_key; now rewrite H |].
  split; [| split; [| split]].
  - intros p H; split; [unfold route_key; now rewrite H |].
    apply route_key_unrooted, H.
  - intros traffic config p Hp traffic' H.
    rewrite (registerTraffic_stores traffic traffic' config p Hp H).
    apply JsMapFacts.get_set_same.
  - intros traffic config traffic'; apply registerTraffic_rooted.
  - intros configs traffic H.
    apply (registerAll_rooted configs create traffic); [| exact H].
    intros key [].
Qed.

(** An instance of C10's statement: a path without a leading slash is
    stored under the key with one. *)
Lemma registerTraffic_normalizes_path_witness :
  JsMap.get "/orders/new" [("/orders/new", Scenarios.relative_path)]
    = Some Scenarios.relative_path
  /\ rooted [("/orders", Scenarios.orders_first); ("/orders/new", Scenarios.relative_path)].
Proof.
  split.
  - exact (proj1 (proj2 (proj2 (proj2 (proj2 registerTraffic_normalizes_path))))
             create Scenarios.relative_path "orders/new" eq_refl
             [("/orders/new", Scenarios.relative_path)] eq_refl).
  - exact (proj2 (proj2 (proj2 (proj2 (proj2 (proj2 registerTraffic_normalizes_path)))))
             [Scenarios.orders_first; Scenarios.relative_path]
             [("/orders", Scenarios.orders_first); ("/orders/new", Scenarios.relative_path)]
             eq_refl).
Defined.

End RegistrationFacts.

(** ** MotiaServer: handling a request *)

Module RequestFacts.
Import MotiaServer.

Lemma try_catch_settled {A} (m : M A) (h : Error -> M A) :
  (forall e, result m <> Throw e) -> try_catch m h = m.
Proof.
  destruct m as [l [a | e | ]]; simpl; intro H; try reflexivity.
  now destruct (H e).
Qed.

Section WithCore.

Variable core_emit : event -> options -> M unit.

Lemma authorization_passes (config : traffic_config) (req : request) :
  passes config req ->
  authorization config req = (authorization_log config req, Ret true).
Proof.
  unfold passes, authorization, authorization_log.
  destruct (authorize config) as [check |]; [| reflexivity].
  intros [v Hv]; rewrite Hv; reflexivity.
Qed.


(** [handleRequest] catches whatever its body throws: it never rejects. *)
Lemma handleRequest_never_rejects (traffic : t) (req : request) (e : Error) :
  result (handleRequest core_emit traffic req) <> Throw e.
Proof.
  unfold handleRequest.
  destruct (JsMap.get (req_path req) traffic) as [config |]; [| discriminate].
  unfold authorization, call_transform.
  destruct (authorize config) as [check |];
    [destruct (check req) as [[] | e1 | ] |];
    try discriminate;
    (destruct (transform config) as [f |];
     [destruct (f req) as [ev | e2 | ] |]; try discriminate;
     simpl; destruct (core_emit ev (emit_options req)) as [l [[] | e3 | ]];
     discriminate).
Qed.

Lemma route_is_handleRequest (traffic : t) (req : request) :
  route core_emit traffic req = handleRequest core_emit traffic req.
Proof.
  unfold route; apply try_catch_settled.
  intro e; apply handleRequest_never_rejects.
Qed.




(** The request goes through: 200 with the emitted event's type. *)
Lemma handleRequest_success
    (traffic : t) (req : request) (config : traffic_config)
    (f : request -> outcome event) (ev : event) :
  JsMap.get (req_path req) traffic = Some config ->
  passes config req ->
  transform config = Some f -> f req = Ret ev ->
  result (core_emit ev (emit_options req)) = Ret tt ->
  handleRequest core_emit traffic req =
    (authorization_log config req
       ++ [CallTransform req; CallEmit ev (emit_options req)]
       ++ actions (core_emit ev (emit_options req))
       ++ [Respond 200 (VObject [("success", VBool true);
                                 ("eventType", VString (type ev))])], Ret tt).
Proof.
  intros Hget Hpass Hf Hret Hemit.
  unfold handleRequest; rewrite Hget, (authorization_passes config req Hpass).
  unfold call_transform; rewrite Hf, Hret; simpl.
  destruct (core_emit ev (emit_options req)) as [l r]; simpl in Hemit; subst r.
  simpl; rewrite <- ?app_assoc; reflexivity.
Qed.


(** C3, first half (as the code has it). The options [handleRequest]
    emits with carry the inbound [x-trace-id] header as trace id, and no
    trace id when the request has no such header. *)
Lemma handleRequest_propagates_trace_header
    (traffic : t) (req : request) (config : traffic_config)
    (f : request -> outcome event) (ev : event) :
  JsMap.get (req_path req) traffic = Some config ->
  passes config req ->
  transform config = Some f -> f req = Ret ev ->
  In (CallEmit ev {| traceId := lookup "x-trace-id" (req_headers req);
                     metadata := [("source", "http"); ("path", req_path req);
                                  ("method", req_method req)] |})
     (actions (handleRequest core_emit traffic req)).
Proof.
  intros Hget Hpass Hf Hret.
  unfold handleRequest; rewrite Hget, (authorization_passes config req Hpass).
  unfold call_transform; rewrite Hf, Hret; simpl.
  destruct (core_emit ev (emit_options req)) as [l [[] | e | ]];
    simpl; try rewrite <- app_assoc; apply in_or_app; right; simpl; auto.
Qed.

End WithCore.




End RequestFacts.

(** ** Trace ids of HTTP-triggered chains *)

Module TraceFacts.

Lemma emit_all_with (minted : string) (flows : list string) (step : ApiServer.Step)
    (evs : list event) :
  ApiServer.emit_all (ApiServer.emit_with minted flows step) evs =
    (map (fun e => EventManagerEmit e minted flows (ApiServer.filePath step)) evs, Ret tt).
Proof.
  induction evs as [| e rest IH]; simpl; [reflexivity |].
  rewrite IH; reflexivity.
Qed.

Lemma set_headers_settles (hs : option (list (string * string))) :
  exists l, ApiServer.set_headers hs = (l, Ret tt).
Proof. destruct hs; eexists; reflexivity. Qed.

(** C3 (as the code has it). [MotiaServer.handleRequest] attaches to the
    emitted event's options the inbound [x-trace-id] header as it is, a
    missing header giving no trace id: it mints none.  [asyncHandler] of
    the API server draws a new id from [randomUUID] for every request and
    hands that id to the handler and to every event the handler emits,
    whatever headers the request carries. *)
Theorem http_trigger_trace_id :
  (forall core_emit traffic req config f ev,
     JsMap.get (req_path req) traffic = Some config ->
     MotiaServer.passes config req ->
     MotiaServer.transform config = Some f -> f req = Ret ev ->
     In (CallEmit ev {| traceId := lookup "x-trace-id" (req_headers req);
                        metadata := [("source", "http"); ("path", req_path req);
                                     ("method", req_method req)] |})
        (actions (MotiaServer.handleRequest core_emit traffic req)))
  /\ (forall step flows g req,
        let minted := ApiServer.uuid_at g (ApiServer.drawn g) in
        ApiServer.asyncHandler step flows g req =
          (emit_obs (RandomUUID minted) ;;
           try_catch
             (result <- ApiServer.handler step
                          (ApiServer.mkApiRequest (ApiServer.req_body req)
                             (ApiServer.req_headers req) (ApiServer.req_params req)
                             (ApiServer.req_query req))
                          (ApiServer.emit_with minted flows step) minted ;;
              ApiServer.set_headers (ApiServer.response_headers result) ;;
              emit_obs (Respond (ApiServer.status result)
                                (ApiServer.response_body result)))
             (fun error =>
                emit_obs (ConsoleLog error) ;;
                emit_obs (Respond 500 (VObject [("error", VString "Internal server error")]))),
           ApiServer.mkEntropy (ApiServer.uuid_at g) (S (ApiServer.drawn g))))
  /\ (forall file evs resp flows g req,
        let minted := ApiServer.uuid_at g (ApiServer.drawn g) in
        ApiServer.asyncHandler (ApiServer.mkStep file (ApiServer.scripted evs resp))
                               flows g req =
          ((RandomUUID minted
              :: map (fun e => EventManagerEmit e minted flows file) evs
              ++ actions (ApiServer.set_headers (ApiServer.response_headers resp))
              ++ [Respond (ApiServer.status resp) (ApiServer.response_body resp)],
            Ret tt),
           ApiServer.mkEntropy (ApiServer.uuid_at g) (S (ApiServer.drawn g)))).
Proof.
  split; [| split].
  - intros; eapply RequestFacts.handleRequest_propagates_trace_header; eassumption.
  - intros; reflexivity.
  - intros file evs resp flows g req minted.
    unfold ApiServer.asyncHandler; simpl; fold minted.
    unfold ApiServer.scripted.
    rewrite (emit_all_with minted flows (ApiServer.mkStep file (ApiServer.scripted evs resp))).
    simpl.
    destruct (set_headers_settles (ApiServer.response_headers resp)) as [l Hl].
    rewrite Hl; simpl; rewrite ?app_nil_r, <- ?app_assoc; reflexivity.
Qed.

(** An instance of C3's statement: a request carrying [x-trace-id: abc]. *)
Lemma http_trigger_trace_id_witness :
  In (CallEmit {| type := "orders.first"; data := VString "o-1" |}
        {| traceId := Some "abc";
           metadata := [("source", "http"); ("path", "/orders"); ("method", "POST")] |})
     (actions (MotiaServer.handleRequest (MotiaCore.emit 1 Scenarios.quiet_core)
                 [("/orders", Scenarios.orders_first)] Scenarios.post_orders_traced)).
Proof.
  exact (proj1 http_trigger_trace_id (MotiaCore.emit 1 Scenarios.quiet_core)
           [("/orders", Scenarios.orders_first)] Scenarios.post_orders_traced
           Scenarios.orders_first
           (fun req => Ret {| type := "orders.first"; data := req_body req |})
           {| type := "orders.first"; data := VString "o-1" |}
           eq_refl I eq_refl eq_refl).
Defined.

(** C3 as stated fails on both servers.  A request without the header
    gets no trace id from [handleRequest], where the specification asks
    for a minted one; a request with [x-trace-id: abc] gets a minted id
    from [asyncHandler], where the specification asks for [abc]. *)
Lemma trace_id_neither_minted_nor_propagated :
  MotiaServer.handleRequest (MotiaCore.emit 1 Scenarios.quiet_core)
      [("/orders", Scenarios.orders_first)] Scenarios.post_orders
    = ([ CallTransform Scenarios.post_orders;
         CallEmit {| type := "orders.first"; data := VString "o-1" |}
           {| traceId := None;
              metadata := [("source", "http"); ("path", "/orders"); ("method", "POST")] |};
         Respond 200 (VObject [("success", VBool true);
                               ("eventType", VString "orders.first")]) ],
       Ret tt)
  /\ (forall minted, Some (Spec.trace_id None minted) <> (None : option string))
  /\ fst (ApiServer.asyncHandler Scenarios.api_step ["orders"] Scenarios.uuids
            Scenarios.api_request_traced)
     = ([ RandomUUID "6f1c2d3e-minted";
          EventManagerEmit {| type := "api.called"; data := VString "o-1" |}
            "6f1c2d3e-minted" ["orders"] "./steps/api.step";
          Respond 200 (VString "ok") ],
        Ret tt)
  /\ Spec.trace_id (lookup "x-trace-id"
                      (ApiServer.req_headers Scenarios.api_request_traced))
                   "6f1c2d3e-minted" = "abc"
  /\ "6f1c2d3e-minted" <> "abc".
Proof.
  repeat split; try reflexivity; discriminate.
Qed.

End TraceFacts.

(** ** MotiaScheduler: parsing intervals and starting schedules *)

Module SchedulerFacts.
Import MotiaScheduler.

(** *** Splitting on spaces *)

Lemma split_nonempty (sep : ascii) (s : string) : Js.split sep s <> [].
Proof.
  induction s as [| c rest IH]; simpl; [discriminate |].
  destruct (Ascii.eqb c sep); [discriminate |].
  destruct (Js.split sep rest); discriminate.
Qed.

Lemma split_token (t : string) :
  Spec.no_space t = true -> Js.split " " t = [t].
Proof.
  induction t as [| c rest IH]; simpl; [reflexivity |].
  intro H; apply andb_prop in H; destruct H as [Hc Hrest].
  apply negb_true_iff in Hc; rewrite Hc, (IH Hrest); reflexivity.
Qed.

Lemma split_token_space (t rest : string) :
  Spec.no_space t = true ->
  Js.split " " (String.append t (String " " rest)) = t :: Js.split " " rest.
Proof.
  induction t as [| c t' IH]; simpl; [reflexivity |].
  intro H; apply andb_prop in H; destruct H as [Hc Ht'].
  apply negb_true_iff in Hc; rewrite Hc, (IH Ht'); reflexivity.
Qed.

Lemma split_five (t1 t2 t3 t4 t5 : string) :
  Spec.no_space t1 = true -> Spec.no_space t2 = true -> Spec.no_space t3 = true ->
  Spec.no_space t4 = true -> Spec.no_space t5 = true ->
  Js.split " " (String.concat " " [t1; t2; t3; t4; t5]) = [t1; t2; t3; t4; t5].
Proof.
  intros H1 H2 H3 H4 H5; simpl String.concat.
  change (String.append " " ?x) with (String " " x).
  repeat (rewrite split_token_space by assumption).
  now rewrite split_token.
Qed.

Lemma split_pieces (s : string) :
  Forall (fun t => Spec.no_space t = true) (Js.split " " s).
Proof.
  induction s as [| c rest IH]; simpl; [repeat constructor |].
  destruct (Ascii.eqb c " ") eqn:E; [constructor; [reflexivity | exact IH] |].
  destruct (Js.split " " rest) as [| piece pieces].
  - repeat constructor; simpl; now rewrite E.
  - inversion IH; subst; constructor; [simpl; now rewrite E | assumption].
Qed.

Lemma concat_split (s : string) : String.concat " " (Js.split " " s) = s.
Proof.
  induction s as [| c rest IH]; simpl; [reflexivity |].
  destruct (Ascii.eqb c " ") eqn:E.
  - apply Ascii.eqb_eq in E; subst c.
    pose proof (split_nonempty " " rest) as Hne.
    destruct (Js.split " " rest) as [| piece pieces]; [contradiction |].
    change (String.concat " " (EmptyString :: piece :: pieces))
      with (String " " (String.concat " " (piece :: pieces))).
    now rewrite IH.
  - pose proof (split_nonempty " " rest) as Hne.
    destruct (Js.split " " rest) as [| piece pieces]; [contradiction |].
    rewrite <- IH; destruct pieces; reflexivity.
Qed.

Lemma five_pieces (s : string) :
  List.length (Js.split " " s) = 5 -> Spec.five_tokens s.
Proof.
  intro Hlen; pose proof (split_pieces s) as Hall; pose proof (concat_split s) as Hcat.
  destruct (Js.split " " s) as [| t1 [| t2 [| t3 [| t4 [| t5 [| t6 more]]]]]];
    try discriminate.
  repeat match goal with H : Forall _ (_ :: _) |- _ => inversion H; clear H; subst end.
  exists t1, t2, t3, t4, t5; repeat split; assumption || (now symmetry) || idtac.
Qed.

(** *** The duration pattern *)

Lemma substring_cut (s : string) :
  forall k, k <= String.length s ->
    s = String.append (String.substring 0 k s)
                      (String.substring k (String.length s - k) s).
Proof.
  induction s as [| c rest IH]; intros k Hk; simpl in Hk.
  - now destruct k.
  - destruct k as [| k]; simpl.
    + now rewrite JsFacts.substring_all.
    + f_equal; apply IH; lia.
Qed.

Lemma no_space_append (a b : string) :
  Spec.no_space (String.append a b) = Spec.no_space a && Spec.no_space b.
Proof.
  induction a as [| c a IH]; simpl; [reflexivity |].
  now rewrite IH, andb_assoc.
Qed.

Lemma digits_no_space (s : string) : Js.all_digits s = true -> Spec.no_space s = true.
Proof.
  induction s as [| c rest IH]; simpl; [reflexivity |].
  intro H; apply andb_prop in H; destruct H as [Hc Hrest].
  rewrite (IH Hrest), andb_true_r.
  destruct (Ascii.eqb c " ") eqn:E; [| reflexivity].
  apply Ascii.eqb_eq in E; subst c; discriminate.
Qed.

Lemma unit_cases (u : string) :
  (String.eqb u "s" || String.eqb u "m" || String.eqb u "h" || String.eqb u "d") = true
  <-> In u ["s"; "m"; "h"; "d"].
Proof.
  simpl; rewrite !orb_true_iff, !String.eqb_eq; intuition congruence.
Qed.

(** What the regular expression accepts, and what it captures. *)
Lemma timeRegex_match_sound (s value unit : string) :
  timeRegex_match s = Some (value, unit) ->
  s = String.append value unit /\ value <> EmptyString
  /\ Js.all_digits value = true /\ In unit ["s"; "m"; "h"; "d"].
Proof.
  unfold timeRegex_match.
  set (n := String.length s).
  destruct (negb (String.eqb (String.substring 0 (n - 1) s) "")) eqn:Hne; [| discriminate].
  destruct (Js.all_digits (String.substring 0 (n - 1) s)) eqn:Hd; [| discriminate].
  destruct (String.eqb (String.substring (n - 1) 1 s) "s"
            || String.eqb (String.substring (n - 1) 1 s) "m"
            || String.eqb (String.substring (n - 1) 1 s) "h"
            || String.eqb (String.substring (n - 1) 1 s) "d") eqn:Hu; [| discriminate].
  simpl; intros [= <- <-].
  apply negb_true_iff, String.eqb_neq in Hne.
  apply unit_cases in Hu.
  repeat split; try assumption.
  destruct (Nat.eq_dec n 0) as [Hz | Hnz].
  - exfalso; apply Hne; unfold n in *.
    destruct s; [reflexivity | discriminate].
  - pose proof (substring_cut s (n - 1)) as Hcut.
    replace (String.length s - (n - 1)) with 1 in Hcut by (unfold n; lia).
    apply Hcut; unfold n; lia.
Qed.

Lemma timeRegex_match_complete (digits unit : string) :
  digits <> EmptyString -> Js.all_digits digits = true ->
  In unit ["s"; "m"; "h"; "d"] ->
  timeRegex_match (String.append digits unit) = Some (digits, unit).
Proof.
  intros Hne Hd Hu; unfold timeRegex_match.
  assert (Hlen : String.length unit = 1)
    by (destruct Hu as [<- | [<- | [<- | [<- | []]]]]; reflexivity).
  rewrite JsFacts.length_append, Hlen.
  replace (String.length digits + 1 - 1) with (String.length digits) by lia.
  rewrite JsFacts.substring_append_left, JsFacts.substring_append_right.
  assert (Hunit : String.substring 0 1 unit = unit)
    by (rewrite <- Hlen; apply JsFacts.substring_all).
  rewrite Hunit.
  apply String.eqb_neq in Hne; rewrite Hne, Hd.
  apply unit_cases in Hu; rewrite Hu; reflexivity.
Qed.

Lemma timeRegex_rejects_spaces (s : string) :
  Spec.five_tokens s -> timeRegex_match s = None.
Proof.
  intros (t1 & t2 & t3 & t4 & t5 & H1 & H2 & H3 & H4 & H5 & ->).
  destruct (timeRegex_match _) as [[value unit] |] eqn:E; [| reflexivity].
  apply timeRegex_match_sound in E; destruct E as (Hs & _ & Hd & Hu).
  apply (f_equal Spec.no_space) in Hs.
  rewrite no_space_append, (digits_no_space _ Hd) in Hs.
  replace (Spec.no_space unit) with true in Hs
    by (destruct Hu as [<- | [<- | [<- | [<- | []]]]]; reflexivity).
  simpl String.concat in Hs; rewrite no_space_append in Hs.
  simpl in Hs; rewrite andb_false_r in Hs; discriminate.
Qed.

(** The value of a duration: the integer times the unit's milliseconds. *)
Lemma parseSchedule_duration (digits : string) :
  digits <> EmptyString -> Js.all_digits digits = true ->
  parseSchedule (String.append digits "s") = Ret (Js.parseInt digits * 1000)%Z
  /\ parseSchedule (String.append digits "m") = Ret (Js.parseInt digits * 60 * 1000)%Z
  /\ parseSchedule (String.append digits "h") = Ret (Js.parseInt digits * 60 * 60 * 1000)%Z
  /\ parseSchedule (String.append digits "d")
     = Ret (Js.parseInt digits * 24 * 60 * 60 * 1000)%Z.
Proof.
  intros Hne Hd; unfold parseSchedule.
  rewrite !timeRegex_match_complete by (simpl; auto).
  repeat split; reflexivity.
Qed.


(** C9. The schedule parser maps [30s] to 30000 and [2h] to 7200000
    milliseconds, every string of five space-separated tokens to the fixed
    3600000, and throws the error [Invalid schedule format: ...] on [abc]
    and on every string that is neither a duration nor five tokens. *)
Theorem parseSchedule_grammar :
  parseSchedule "30s" = Ret 30000%Z
  /\ parseSchedule "2h" = Ret 7200000%Z
  /\ parseSchedule "* * * * *" = Ret 3600000%Z
  /\ (forall s, Spec.five_tokens s -> parseSchedule s = Ret 3600000%Z)
  /\ parseSchedule "abc" = Throw (mkError "Invalid schedule format: abc")
  /\ (forall s, ~ Spec.duration s -> ~ Spec.five_tokens s ->
        parseSchedule s = Throw (mkError (String.append "Invalid schedule format: " s))).
Proof.
  repeat split; try reflexivity.
  - intros s Hfive; unfold parseSchedule.
    rewrite (timeRegex_rejects_spaces s Hfive).
    destruct Hfive as (t1 & t2 & t3 & t4 & t5 & H1 & H2 & H3 & H4 & H5 & ->).
    rewrite split_five by assumption; reflexivity.
  - intros s Hdur Hfive; unfold parseSchedule.
    destruct (timeRegex_match s) as [[value unit] |] eqn:E.
    + exfalso; apply Hdur.
      apply timeRegex_match_sound in E; destruct E as (Hs & Hne & Hd & Hu).
      exists value, unit; auto.
    + destruct (Nat.eqb (List.length (Js.split " " s)) 5) eqn:E5; [| reflexivity].
      exfalso; apply Hfive, five_pieces, Nat.eqb_eq, E5.
Qed.

(** Instances of C9's statement: a five-token string, and a string that
    is neither a duration nor five tokens. *)
Lemma parseSchedule_grammar_witness :
  parseSchedule "0 12 * * 1" = Ret 3600000%Z
  /\ parseSchedule "every day" = Throw (mkError "Invalid schedule format: every day").
Proof.
  split.
  - apply (proj1 (proj2 (proj2 (proj2 parseSchedule_grammar)))).
    exists "0", "12", "*", "*", "1"; repeat split; reflexivity.
  - apply (proj2 (proj2 (proj2 (proj2 (proj2 parseSchedule_grammar))))).
    + intros (digits & unit & _ & Hd & Hu & Hs).
      apply (f_equal Spec.no_space) in Hs.
      rewrite no_space_append, (digits_no_space _ Hd) in Hs.
      destruct Hu as [<- | [<- | [<- | [<- | []]]]]; simpl in Hs; discriminate.
    + intros (t1 & t2 & t3 & t4 & t5 & H1 & H2 & H3 & H4 & H5 & Hs).
      apply (f_equal (Js.split " ")) in Hs.
      rewrite split_five in Hs by assumption; simpl in Hs; discriminate.
Defined.

End SchedulerFacts.

(** ** MotiaScheduler: [start] on a schedule that does not parse *)

Module StartFacts.
Import MotiaScheduler.






End StartFacts.

(** * Further properties of the runtime *)

(** ** InMemoryMessageBus: settlement and order of a round *)

Module BusRoundFacts.
Import InMemoryMessageBus.





End BusRoundFacts.

(** ** MotiaCore: which patterns match, and what an emission does *)

Module CoreEmitFacts.
Import MotiaCore.

Lemma prefix_inv (a b : string) :
  String.prefix a b = true -> exists rest, b = String.append a rest.
Proof.
  revert b; induction a as [| c a IH]; intros b H.
  - exists b; reflexivity.
  - destruct b as [| c' b]; simpl in H; [discriminate |].
    destruct (ascii_dec c c') as [<- | _]; [| discriminate].
    destruct (IH b H) as [rest ->]; exists rest; reflexivity.
Qed.

Lemma endsWith_inv (s suffix : string) :
  Js.endsWith s suffix = true ->
  s = String.append
        (String.substring 0 (String.length s - String.length suffix) s) suffix.
Proof.
  unfold Js.endsWith.
  destruct (Nat.leb (String.length suffix) (String.length s)) eqn:Hle; [| discriminate].
  apply Nat.leb_le in Hle; intro H; apply String.eqb_eq in H.
  pose proof (SchedulerFacts.substring_cut s (String.length s - String.length suffix)) as Hcut.
  replace (String.length s - (String.length s - String.length suffix))
    with (String.length suffix) in Hcut by lia.
  rewrite H in Hcut; apply Hcut; lia.
Qed.

Lemma slice_wildcard (pattern : string) :
  Js.slice pattern 0 (-2) = String.substring 0 (String.length pattern - 2) pattern.
Proof.
  unfold Js.slice, Js.slice_index.
  replace (0 <? 0)%Z with false by reflexivity.
  replace (-2 <? 0)%Z with true by reflexivity.
  simpl Z.to_nat at 1; rewrite Nat.min_0_l, Nat.sub_0_r.
  f_equal; lia.
Qed.

(** X3. The matcher accepts exactly three shapes: the pattern is the
    literal [*], the pattern equals the event type, or the pattern is
    [pre.*] and the event type begins with [pre] (whatever follows, so a
    type equal to [pre] itself matches too). *)
Theorem eventMatchesPattern_characterization (eventType pattern : string) :
  eventMatchesPattern eventType pattern = true <->
  pattern = "*" \/ pattern = eventType
  \/ exists pre rest, pattern = String.append pre ".*"
                      /\ eventType = String.append pre rest.
Proof.
  split.
  - unfold eventMatchesPattern.
    destruct (String.eqb pattern "*") eqn:Hstar;
      [apply String.eqb_eq in Hstar; auto |].
    destruct (String.eqb pattern eventType) eqn:Hsame;
      [apply String.eqb_eq in Hsame; auto |].
    destruct (Js.endsWith pattern ".*") eqn:Hends; [| discriminate].
    intro Hpre; right; right.
    rewrite slice_wildcard in Hpre.
    apply endsWith_inv in Hends; simpl String.length in Hends.
    destruct (prefix_inv _ _ Hpre) as [rest Hrest].
    exists (String.substring 0 (String.length pattern - 2) pattern), rest.
    split; assumption.
  - intros [-> | [-> | (pre & rest & -> & ->)]].
    + reflexivity.
    + apply CoreFacts.eventMatchesPattern_same.
    + apply CoreFacts.eventMatchesPattern_wildcard.
Qed.

(** A round in which every subscriber returns at once. *)
Lemma fan_out_silent (subs : list InMemoryMessageBus.subscriber) e o :
  (forall s, In s subs -> s e o = ret tt) ->
  forall k,
    fst (InMemoryMessageBus.fan_out k subs e o)
      = map (fun i => CallSubscriber i e o) (seq k (length subs))
    /\ InMemoryMessageBus.promise_all (snd (InMemoryMessageBus.fan_out k subs e o))
       = Ret tt.
Proof.
  induction subs as [| s rest IH]; intros Hsilent k; [split; reflexivity |].
  rewrite BusFacts.fan_out_cons, (Hsilent s (or_introl eq_refl)).
  destruct (IH (fun s' H => Hsilent s' (or_intror H)) (S k)) as [Hl Hr].
  simpl; rewrite Hl, Hr; split; reflexivity.
Qed.

Lemma subscriptions_inv (this_emit : event -> options -> M unit)
    (comps : list (string * module)) (s : InMemoryMessageBus.subscriber) :
  In s (subscriptions this_emit comps) ->
  exists id m patterns p,
    In (id, m) comps /\ subscribe m = Some patterns /\ In p patterns
    /\ s = subscription this_emit id (default m) p.
Proof.
  unfold subscriptions; intro H; apply in_flat_map in H.
  destruct H as ([id m] & Hin & Hs).
  destruct (subscribe m) as [patterns |] eqn:E; [| destruct Hs].
  apply in_map_iff in Hs; destruct Hs as (p & <- & Hp).
  exists id, m, patterns, p; auto.
Qed.

(** X4. An event whose type matches no subscribed pattern reaches no
    component: every subscriber of the in-memory bus is still called (the
    bus does not filter), each returns at once, no handler is invoked, and
    the emission is fulfilled. *)
Theorem emit_without_match (fuel : nat) (comps : list (string * module))
    (e : event) (o : options) :
  (forall id m patterns p,
     In (id, m) comps -> subscribe m = Some patterns -> In p patterns ->
     eventMatchesPattern (type e) p = false) ->
  emit (S fuel) (mkCore None comps) e o =
    (map (fun i => CallSubscriber i e o)
         (seq 0 (length (subscriptions (emit fuel (mkCore None comps)) comps))),
     Ret tt)
  /\ forall id input o' third,
       ~ In (CallComponent id input o' third)
            (actions (emit (S fuel) (mkCore None comps) e o)).
Proof.
  intro Hnone.
  assert (Hsilent : forall s,
             In s (subscriptions (emit fuel (mkCore None comps)) comps) ->
             s e o = ret tt).
  { intros s Hs; apply subscriptions_inv in Hs.
    destruct Hs as (id & m & patterns & p & Hin & Hsub & Hp & ->).
    apply CoreFacts.subscription_not_matching; eauto. }
  destruct (fan_out_silent _ e o Hsilent 0) as [Hl Hr].
  assert (Heq : emit (S fuel) (mkCore None comps) e o =
                (map (fun i => CallSubscriber i e o)
                   (seq 0 (length (subscriptions (emit fuel (mkCore None comps)) comps))),
                 Ret tt)).
  { simpl emit; unfold InMemoryMessageBus.publish.
    destruct (InMemoryMessageBus.fan_out 0 _ e o) as [l ps]; simpl in Hl, Hr.
    now rewrite Hl, Hr. }
  split; [exact Heq |].
  intros id input o' third Hin; rewrite Heq in Hin; simpl in Hin.
  apply in_map_iff in Hin; destruct Hin as (i & Hi & _); discriminate.
Qed.

(** An instance of X4: an event type the probe component does not
    subscribe to. *)
Lemma emit_without_match_witness :
  emit 1 Scenarios.probe_core {| type := "user.created"; data := VUndefined |}
       {| traceId := None; metadata := [] |}
  = ([CallSubscriber 0 {| type := "user.created"; data := VUndefined |}
                       {| traceId := None; metadata := [] |}], Ret tt).
Proof.
  refine (proj1 (emit_without_match 0 (components Scenarios.probe_core)
                   {| type := "user.created"; data := VUndefined |}
                   {| traceId := None; metadata := [] |} _)).
  intros id m patterns p [[= <- <-] | []] [= <-] [<- | []]; reflexivity.
Defined.

(** With the in-memory bus an emission is fulfilled or pending. *)
Lemma emit_in_memory_settlement (fuel : nat) (comps : list (string * module))
    (e : event) (o : options) (err : Error) :
  result (emit fuel (mkCore None comps) e o) <> Throw err.
Proof.
  destruct fuel as [| fuel]; simpl emit; [discriminate |].
  rewrite BusFacts.publish_result; apply BusFacts.fan_out_never_rejects.
Qed.

(** X5. With the in-memory bus the HTTP caller never learns that a
    handler failed: once the transform succeeded and the emission settled,
    the response is 200 with the event type, even when components reject.
    Their failures are only logged by the bus. *)
Theorem handleRequest_200_despite_failing_components
    (fuel : nat) (comps : list (string * module))
    (traffic : MotiaServer.t) (req : request) (config : MotiaServer.traffic_config)
    (f : request -> outcome event) (ev : event) :
  JsMap.get (req_path req) traffic = Some config ->
  MotiaServer.passes config req ->
  MotiaServer.transform config = Some f -> f req = Ret ev ->
  result (emit fuel (mkCore None comps) ev (MotiaServer.emit_options req)) <> Hang ->
  MotiaServer.route (emit fuel (mkCore None comps)) traffic req =
    (MotiaServer.authorization_log config req
       ++ [CallTransform req; CallEmit ev (MotiaServer.emit_options req)]
       ++ actions (emit fuel (mkCore None comps) ev (MotiaServer.emit_options req))
       ++ [Respond 200 (VObject [("success", VBool true);
                                 ("eventType", VString (type ev))])],
     Ret tt).
Proof.
  intros Hget Hpass Hf Hret Hsettles.
  rewrite RequestFacts.route_is_handleRequest.
  eapply RequestFacts.handleRequest_success; try eassumption.
  pose proof (emit_in_memory_settlement fuel comps ev (MotiaServer.emit_options req)) as Hno.
  destruct (result (emit fuel (mkCore None comps) ev (MotiaServer.emit_options req)))
    as [[] | err | ]; [reflexivity | destruct (Hno err eq_refl) | contradiction].
Qed.

(** An instance of X5: the only subscribed component throws. *)
Lemma handleRequest_200_despite_failing_components_witness :
  MotiaServer.route (emit 1 Fixtures.crashing_core)
      [("/orders", Scenarios.orders_first)] Scenarios.post_orders
  = ([ CallTransform Scenarios.post_orders;
       CallEmit {| type := "orders.first"; data := VString "o-1" |}
                (MotiaServer.emit_options Scenarios.post_orders);
       CallSubscriber 0 {| type := "orders.first"; data := VString "o-1" |}
                      (MotiaServer.emit_options Scenarios.post_orders);
       CallComponent "./steps/crash" (VString "o-1")
                     (MotiaServer.emit_options Scenarios.post_orders) "orders.first";
       ConsoleError "Error in subscriber:" (mkError "handler crashed");
       Respond 200 (VObject [("success", VBool true);
                             ("eventType", VString "orders.first")]) ],
     Ret tt).
Proof.
  refine (handleRequest_200_despite_failing_components 1
            (components Fixtures.crashing_core)
            [("/orders", Scenarios.orders_first)] Scenarios.post_orders
            Scenarios.orders_first
            (fun req => Ret {| type := "orders.first"; data := req_body req |})
            {| type := "orders.first"; data := VString "o-1" |}
            eq_refl I eq_refl eq_refl _).
  discriminate.
Defined.

End CoreEmitFacts.

(** ** MotiaCore: where components are registered *)

Module RegistryFacts.
Import MotiaCoreRegistry.

Lemma slice_from (a b : string) :
  Js.slice (String.append a b) (Z.of_nat (String.length a))
           (Z.of_nat (String.length (String.append a b))) = b.
Proof.
  unfold Js.slice, Js.slice_index.
  replace (Z.of_nat (String.length a) <? 0)%Z with false
    by (symmetry; apply Z.ltb_ge; lia).
  replace (Z.of_nat (String.length (String.append a b)) <? 0)%Z with false
    by (symmetry; apply Z.ltb_ge; lia).
  rewrite !Nat2Z.id, JsFacts.length_append.
  rewrite Nat.min_id, Nat.min_l by lia.
  replace (String.length a + String.length b - String.length a)
    with (String.length b) by lia.
  rewrite JsFacts.substring_append_right; apply JsFacts.substring_all.
Qed.

Lemma strip_js_extension (base : string) :
  strip_js (String.append base ".js") = base.
Proof.
  unfold strip_js; rewrite JsFacts.endsWith_append.
  destruct (JsFacts.slice_drop_suffix base ".js") as [H | H]; [exact H | discriminate].
Qed.

Lemma replace_src_plain (rest : string) :
  replace_src (String.append "src/" rest) = String.append "./" rest.
Proof.
  unfold replace_src.
  change (Js.startsWith (String.append "src/" rest) "./src/") with false.
  change (Js.startsWith (String.append "src/" rest) "/src/") with false.
  rewrite (JsFacts.startsWith_append "src/" rest).
  f_equal; apply (slice_from "src/" rest).
Qed.

Lemma replace_src_dot (rest : string) :
  replace_src (String.append "./src/" rest) = String.append "./" rest.
Proof.
  unfold replace_src.
  rewrite (JsFacts.startsWith_append "./src/" rest).
  f_equal; apply (slice_from "./src/" rest).
Qed.

Lemma replace_src_root (rest : string) :
  replace_src (String.append "/src/" rest) = String.append "./" rest.
Proof.
  unfold replace_src.
  change (Js.startsWith (String.append "/src/" rest) "./src/") with false.
  rewrite (JsFacts.startsWith_append "/src/" rest).
  f_equal; apply (slice_from "/src/" rest).
Qed.

(** X6. A component file found under [src/] is registered under the same
    id whichever way its path is spelled: [src/x.js], [./src/x.js] and
    [/src/x.js] all become [./x]. *)
Theorem fixedPath_spellings (base : string) :
  fixedPath (String.append "src/" (String.append base ".js")) = String.append "./" base
  /\ fixedPath (String.append "./src/" (String.append base ".js")) = String.append "./" base
  /\ fixedPath (String.append "/src/" (String.append base ".js")) = String.append "./" base.
Proof.
  unfold fixedPath.
  rewrite replace_src_plain, replace_src_dot, replace_src_root.
  change (String.append "./" (String.append base ".js"))
    with (String.append (String.append "./" base) ".js").
  rewrite strip_js_extension; repeat split.
Qed.

Lemma registerComponent_result (require : string -> outcome MotiaCore.module)
    (comps : JsMap.t MotiaCore.module) (path : string) :
  match require (fixedPath path) with
  | Ret m =>
      registerComponent require comps path =
        ([], Ret (match MotiaCore.subscribe m with
                  | Some _ => JsMap.set (fixedPath path) m comps
                  | None => comps
                  end))
  | Throw err =>
      registerComponent require comps path =
        ([ConsoleError (registration_label path) err], Ret comps)
  | Hang => registerComponent require comps path = ([], Hang)
  end.
Proof.
  unfold registerComponent.
  destruct (require (fixedPath path)) as [m | err | ]; try reflexivity.
  simpl; destruct (MotiaCore.subscribe m); reflexivity.
Qed.

Lemma registerComponents_never_rejects (require : string -> outcome MotiaCore.module)
    (files : list string) :
  forall comps err, result (registerComponents require comps files) <> Throw err.
Proof.
  induction files as [| file rest IH]; intros comps err; simpl; [discriminate |].
  pose proof (registerComponent_result require comps file) as H.
  destruct (require (fixedPath file)) as [m | e | ]; rewrite H; simpl.
  - specialize (IH (match MotiaCore.subscribe m with
                    | Some _ => JsMap.set (fixedPath file) m comps
                    | None => comps end) err).
    destruct (registerComponents require _ rest) as [l r]; exact IH.
  - specialize (IH comps err).
    destruct (registerComponents require comps rest) as [l r]; exact IH.
  - discriminate.
Qed.

(** What the table holds after a run of registrations: the modules that
    loaded and declare [subscribe], under the fixed paths of their files. *)
Lemma registerComponents_lookup (require : string -> outcome MotiaCore.module)
    (files : list string) :
  forall (seen : list string) (comps comps' : JsMap.t MotiaCore.module) (log : list obs),
    (forall id m, JsMap.get id comps = Some m <->
                  In id (map fixedPath seen) /\ require id = Ret m
                  /\ MotiaCore.subscribe m <> None) ->
    registerComponents require comps files = (log, Ret comps') ->
    forall id m, JsMap.get id comps' = Some m <->
                 In id (map fixedPath (seen ++ files)) /\ require id = Ret m
                 /\ MotiaCore.subscribe m <> None.
Proof.
  induction files as [| file rest IH]; intros seen comps comps' log Hinv Hrun.
  - simpl in Hrun; injection Hrun as _ <-; rewrite app_nil_r; exact Hinv.
  - simpl in Hrun.
    pose proof (registerComponent_result require comps file) as Hone.
    replace (seen ++ file :: rest) with ((seen ++ [file]) ++ rest)
      by (rewrite <- app_assoc; reflexivity).
    destruct (require (fixedPath file)) as [m0 | e | ] eqn:Hreq;
      rewrite Hone in Hrun; simpl in Hrun; [| | discriminate].
    + destruct (registerComponents require _ rest) as [l r] eqn:Hrest.
      injection Hrun as _ ->.
      eapply IH; [| exact Hrest].
      intros id m; rewrite map_app, in_app_iff; simpl.
      destruct (MotiaCore.subscribe m0) as [ps |] eqn:Hsub.
      * destruct (string_dec (fixedPath file) id) as [<- | Hne].
        -- rewrite JsMapFacts.get_set_same; split.
           ++ intros [= <-]; repeat split; auto; congruence.
           ++ intros (_ & Hm & _); congruence.
        -- rewrite JsMapFacts.get_set_other by exact Hne.
           rewrite Hinv; intuition congruence.
      * rewrite Hinv; split; [intuition |].
        intros ([Hin | [<- | []]] & Hm & Hs); [auto |].
        exfalso; apply Hs; congruence.
    + destruct (registerComponents require comps rest) as [l r] eqn:Hrest.
      injection Hrun as _ ->.
      eapply IH; [| exact Hrest].
      intros id m; rewrite map_app, in_app_iff; simpl.
      rewrite Hinv; split; [intuition |].
      intros ([Hin | [<- | []]] & Hm & Hs); [auto | congruence].
Qed.

Lemma initialize_lookup_helper
    (require : string -> outcome MotiaCore.module) (files : list string)
    (log : list obs) (core : MotiaCore.t) :
  initialize require None files = (log, Ret core) ->
  forall id m,
    JsMap.get id (MotiaCore.components core) = Some m <->
    In id (map fixedPath files) /\ require id = Ret m
    /\ MotiaCore.subscribe m <> None.
Proof.
  unfold initialize; intros Hrun.
  destruct (registerComponents require JsMap.empty files) as [l [comps | e | ]] eqn:E;
    simpl in Hrun; try discriminate.
  injection Hrun as _ <-; simpl.
  apply (registerComponents_lookup require files [] JsMap.empty comps l); [| exact E].
  intros id m; simpl; split; [discriminate | intros ([] & _)].
Qed.

(** X7. Loading components is fail-soft and keeps exactly the usable
    modules: [initialize] never rejects, and when it is fulfilled the
    table holds a module under an id exactly when one of the files has
    that fixed path, the module loads, and it declares [subscribe]. *)
Theorem initialize_registers_subscribing_modules
    (require : string -> outcome MotiaCore.module)
    (messageBus : option (event -> options -> M unit)) (files : list string) :
  (forall err, result (initialize require messageBus files) <> Throw err)
  /\ (forall log core,
        initialize require messageBus files = (log, Ret core) ->
        forall id m,
          JsMap.get id (MotiaCore.components core) = Some m <->
          In id (map fixedPath files) /\ require id = Ret m
          /\ MotiaCore.subscribe m <> None).
Proof.
  unfold initialize; split.
  - intro err.
    pose proof (registerComponents_never_rejects require files JsMap.empty err) as H.
    destruct (registerComponents require JsMap.empty files) as [l [comps | e | ]];
      simpl in *; [discriminate | intros [= ->]; now apply H | discriminate].
  - intros log core Hrun.
    destruct (registerComponents require JsMap.empty files) as [l [comps | e | ]] eqn:E;
      simpl in Hrun; try discriminate.
    injection Hrun as _ <-; simpl.
    apply (registerComponents_lookup require files [] JsMap.empty comps l); [| exact E].
    intros id m; simpl; split; [discriminate | intros ([] & _)].
Qed.

(** An instance of X7: one file loads, one does not. *)
Lemma initialize_registers_subscribing_modules_witness :
  initialize Fixtures.loader None
    ["src/workflows/orders/components/notify.js"; "src/workflows/orders/components/gone.js"]
  = ([ConsoleError "Error registering component at src/workflows/orders/components/gone.js:"
        (mkError "Cannot find module ./workflows/orders/components/gone")],
     Ret (MotiaCore.mkCore None
            [("./workflows/orders/components/notify",
              MotiaCore.mkModule (Some ["order.*"]) Scenarios.probe)]))
  /\ (JsMap.get "./workflows/orders/components/notify"
        [("./workflows/orders/components/notify",
          MotiaCore.mkModule (Some ["order.*"]) Scenarios.probe)]
      = Some (MotiaCore.mkModule (Some ["order.*"]) Scenarios.probe)
      <-> In "./workflows/orders/components/notify"
            (map fixedPath ["src/workflows/orders/components/notify.js";
                            "src/workflows/orders/components/gone.js"])
          /\ Fixtures.loader "./workflows/orders/components/notify"
             = Ret (MotiaCore.mkModule (Some ["order.*"]) Scenarios.probe)
          /\ MotiaCore.subscribe (MotiaCore.mkModule (Some ["order.*"]) Scenarios.probe)
             <> None).
Proof.
  split; [reflexivity |].
  exact (proj2 (initialize_registers_subscribing_modules Fixtures.loader None
                  ["src/workflows/orders/components/notify.js";
                   "src/workflows/orders/components/gone.js"])
               _ _ eq_refl
               "./workflows/orders/components/notify"
               (MotiaCore.mkModule (Some ["order.*"]) Scenarios.probe)).
Defined.

Lemma get_in {V : Type} (key : string) (v : V) (m : JsMap.t V) :
  JsMap.get key m = Some v -> In (key, v) m.
Proof.
  induction m as [| [k old] rest IH]; simpl; [discriminate |].
  destruct (String.eqb k key) eqn:E.
  - apply String.eqb_eq in E; intros [= ->]; left; now subst.
  - intro H; right; apply IH, H.
Qed.

(** X8. Loading and delivery compose: a component file that loads and
    subscribes to a pattern is, after [initialize] with the in-memory bus,
    called for every emitted event whose type matches the pattern, whatever
    happened to the other files. *)
Theorem loaded_component_receives_matching_events
    (require : string -> outcome MotiaCore.module) (files : list string)
    (log : list obs) (core : MotiaCore.t)
    (file : string) (m : MotiaCore.module) (patterns : list string) (p : string)
    (fuel : nat) (e : event) (o : options) :
  initialize require None files = (log, Ret core) ->
  In file files ->
  require (fixedPath file) = Ret m ->
  MotiaCore.subscribe m = Some patterns -> In p patterns ->
  MotiaCore.eventMatchesPattern (type e) p = true ->
  In (CallComponent (fixedPath file) (data e) o (type e))
     (actions (MotiaCore.emit (S fuel) core e o)).
Proof.
  intros Hinit Hfile Hreq Hsub Hp Hmatch.
  assert (Hget : JsMap.get (fixedPath file) (MotiaCore.components core) = Some m).
  { apply (proj2 (initialize_lookup_helper require files log core Hinit (fixedPath file) m)).
    repeat split; [apply in_map, Hfile | exact Hreq | congruence]. }
  assert (Hbus : MotiaCore.provided_bus core = None).
  { unfold initialize in Hinit.
    destruct (registerComponents require JsMap.empty files) as [l [comps | err | ]];
      simpl in Hinit; try discriminate.
    now injection Hinit as _ <-. }
  simpl MotiaCore.emit; rewrite Hbus, BusFacts.publish_actions.
  eapply BusFacts.fan_out_runs.
  - eapply CoreFacts.subscriptions_registered; [apply get_in, Hget | exact Hsub | exact Hp].
  - apply BusFacts.caught_actions.
    rewrite CoreFacts.subscription_matching by exact Hmatch.
    apply actions_bind_incl; left; reflexivity.
Qed.

(** An instance of X8: the notify component subscribes to [order.*]. *)
Lemma loaded_component_receives_matching_events_witness :
  In (CallComponent "./workflows/orders/components/notify" (VString "o-1")
        {| traceId := None; metadata := [] |} "order.created")
     (actions (MotiaCore.emit 1
                 (MotiaCore.mkCore None
                    [("./workflows/orders/components/notify",
                      MotiaCore.mkModule (Some ["order.*"]) Scenarios.probe)])
                 {| type := "order.created"; data := VString "o-1" |}
                 {| traceId := None; metadata := [] |})).
Proof.
  exact (loaded_component_receives_matching_events Fixtures.loader
           ["src/workflows/orders/components/notify.js";
            "src/workflows/orders/components/gone.js"]
           _ _ "src/workflows/orders/components/notify.js"
           (MotiaCore.mkModule (Some ["order.*"]) Scenarios.probe)
           ["order.*"] "order.*" 0
           {| type := "order.created"; data := VString "o-1" |}
           {| traceId := None; metadata := [] |}
           eq_refl (or_introl eq_refl) eq_refl eq_refl (or_introl eq_refl) eq_refl).
Defined.

End RegistryFacts.

(** ** MotiaServer: the table of routes and the responses *)

Module RoutingFacts.
Import MotiaServer ServerNotions.

Lemma registerTraffic_valid (traffic : t) (config : traffic_config) :
  registerTraffic traffic config =
    if valid config
    then Ret (JsMap.set (route_key (Js.string_of (path config))) config traffic)
    else Throw (mkError "Invalid traffic configuration").
Proof.
  unfold registerTraffic, valid.
  destruct (Js.truthy_string (path config)), (Js.truthy_string (method config)),
    (Js.defined (transform config)); reflexivity.
Qed.

(** X9. [registerTraffic] throws [Invalid traffic configuration] exactly
    when the path is missing or empty, the method is missing or empty, or
    the transform is missing; the authorization check is optional and the
    method is not compared with any list of HTTP verbs. *)
Theorem registerTraffic_rejects_incomplete (traffic : t) (config : traffic_config) :
  registerTraffic traffic config = Throw (mkError "Invalid traffic configuration")
  <-> path config = None \/ path config = Some "" \/ method config = None
      \/ method config = Some "" \/ transform config = None.
Proof.
  unfold registerTraffic.
  destruct (path config) as [[| c p] |], (method config) as [[| c' m] |],
    (transform config) as [f |]; simpl;
    split; intro H; try reflexivity; try discriminate; auto 6;
    repeat (destruct H as [H | H]; try discriminate).
  all: discriminate.
Qed.

Lemma find_snoc {A : Type} (test : A -> bool) (l : list A) (x : A) :
  find test (l ++ [x]) =
    match find test l with
    | Some y => Some y
    | None => if test x then Some x else None
    end.
Proof.
  induction l as [| a l IH]; simpl; [reflexivity |].
  destruct (test a); [reflexivity | exact IH].
Qed.

(** Lookup after the registration loop: the last configuration stored
    under the key, or what the table held before. *)
Lemma registerAll_get (configs : list traffic_config) :
  forall (traffic traffic' : t) (key : string),
    registerAll traffic configs = Ret traffic' ->
    JsMap.get key traffic' =
      match active_for key configs with
      | Some c => Some c
      | None => JsMap.get key traffic
      end.
Proof.
  unfold active_for.
  induction configs as [| c rest IH]; intros traffic traffic' key Hrun; simpl in Hrun.
  - injection Hrun as <-; reflexivity.
  - rewrite registerTraffic_valid in Hrun.
    destruct (valid c); [| discriminate].
    rewrite (IH _ _ key Hrun); simpl rev; rewrite find_snoc.
    destruct (find _ (rev rest)) as [y |]; [reflexivity |].
    destruct (String.eqb (route_key (Js.string_of (path c))) key) eqn:E.
    + apply String.eqb_eq in E; subst key; apply JsMapFacts.get_set_same.
    + apply String.eqb_neq in E; apply JsMapFacts.get_set_other, E.
Qed.

(** X10. After [initialize] has registered a list of configurations, the
    configuration that serves a path is the last one of the list whose
    normalized path is that path, and a path no configuration normalizes
    to is not in the table. *)
Theorem registerAll_last_registration_wins
    (configs : list traffic_config) (traffic : t) (key : string) :
  registerAll create configs = Ret traffic ->
  JsMap.get key traffic = active_for key configs.
Proof.
  intro Hrun; rewrite (registerAll_get configs create traffic key Hrun).
  destruct (active_for key configs); reflexivity.
Qed.

(** An instance of X10: three registrations, two of them for /orders. *)
Lemma registerAll_last_registration_wins_witness :
  JsMap.get "/orders"
    [("/orders", Scenarios.orders_second); ("/orders/new", Scenarios.relative_path)]
  = Some Scenarios.orders_second.
Proof.
  exact (registerAll_last_registration_wins
           [Scenarios.orders_first; Scenarios.relative_path; Scenarios.orders_second]
           [("/orders", Scenarios.orders_second); ("/orders/new", Scenarios.relative_path)]
           "/orders" eq_refl).
Defined.




(** X12. One incomplete configuration aborts the registration loop of
    [initialize]: the loop throws [Invalid traffic configuration] at the
    first configuration that is not valid, however many valid ones precede
    and follow it. *)
Theorem registerAll_aborts_on_incomplete
    (before after : list traffic_config) (bad : traffic_config) (traffic : t) :
  (forall c, In c before -> valid c = true) ->
  valid bad = false ->
  registerAll traffic (before ++ bad :: after)
    = Throw (mkError "Invalid traffic configuration").
Proof.
  intros Hbefore Hbad; revert traffic.
  induction before as [| c rest IH]; intro traffic; simpl.
  - now rewrite registerTraffic_valid, Hbad.
  - rewrite registerTraffic_valid, (Hbefore c (or_introl eq_refl)).
    apply IH; intros c' Hin; apply Hbefore; right; exact Hin.
Qed.

(** An instance of X12: a configuration without transform between two
    complete ones. *)
Lemma registerAll_aborts_on_incomplete_witness :
  registerAll create
    ([Scenarios.orders_first]
       ++ mkTraffic (Some "/broken") (Some "POST") None None
       :: [Scenarios.relative_path])
  = Throw (mkError "Invalid traffic configuration").
Proof.
  refine (registerAll_aborts_on_incomplete [Scenarios.orders_first]
            [Scenarios.relative_path]
            (mkTraffic (Some "/broken") (Some "POST") None None) create _ eq_refl).
  intros c [<- | []]; reflexivity.
Defined.


Lemma responses_authorization_log (config : traffic_config) (req : request) :
  responses (authorization_log config req) = [].
Proof. unfold authorization_log; destruct (authorize config); reflexivity. Qed.



End RoutingFacts.

(** ** MotiaScheduler: jobs and timers across [start] and [stop] *)

Module TimerFacts.
Import MotiaScheduler SchedulerNotions.

Lemma numbered_cons (h : nat) (entry : string * schedule)
    (rest : list (string * schedule)) :
  numbered h (entry :: rest) = (entry, h) :: numbered (S h) rest.
Proof. reflexivity. Qed.

Lemma new_jobs_keys (entries : list (string * schedule)) :
  forall h, map fst (new_jobs h entries) = map fst entries.
Proof.
  unfold new_jobs; induction entries as [| entry rest IH]; intro h; [reflexivity |].
  rewrite numbered_cons; simpl; f_equal; apply IH.
Qed.

Lemma new_jobs_handles (entries : list (string * schedule)) :
  forall h, map snd (new_jobs h entries) = seq h (length entries).
Proof.
  unfold new_jobs; induction entries as [| entry rest IH]; intro h; [reflexivity |].
  rewrite numbered_cons; simpl; f_equal; apply IH.
Qed.

Lemma new_timers_handles (entries : list (string * schedule)) :
  forall h, map fst (new_timers h entries) = seq h (length entries).
Proof.
  unfold new_timers; induction entries as [| entry rest IH]; intro h; [reflexivity |].
  rewrite numbered_cons; simpl; f_equal; apply IH.
Qed.

(** One round of [start] over schedules that all parse. *)
Lemma start_each_all_parse (entries : list (string * schedule)) :
  forall s, all_parse entries ->
    start_each entries s =
      (Ret tt,
       mkScheduler (schedules s)
                   (set_jobs (new_jobs (next_handle s) entries) (activeJobs s))
                   (timers s ++ new_timers (next_handle s) entries)
                   (next_handle s + length entries)).
Proof.
  induction entries as [| [id sch] rest IH]; intros s Hparse.
  - simpl; rewrite app_nil_r, Nat.add_0_r; now destruct s.
  - destruct (Hparse (id, sch) (or_introl eq_refl)) as [ms Hms]; simpl in Hms.
    simpl start_each; rewrite Hms.
    rewrite IH by (intros entry Hin; apply Hparse; right; exact Hin).
    unfold new_jobs, new_timers; rewrite numbered_cons; simpl.
    unfold period_of at 2; rewrite Hms.
    rewrite <- app_assoc; simpl.
    repeat f_equal; lia.
Qed.

Lemma set_absent (id : string) (v : nat) (m : JsMap.t nat) :
  ~ In id (JsMap.keys m) -> JsMap.set id v m = m ++ [(id, v)].
Proof.
  induction m as [| [k old] rest IH]; simpl; intro H; [reflexivity |].
  destruct (String.eqb k id) eqn:E.
  - apply String.eqb_eq in E; subst k; destruct H; left; reflexivity.
  - f_equal; apply IH; intro Hin; apply H; right; exact Hin.
Qed.

Lemma set_present (id : string) (v old : nat) (pre post : JsMap.t nat) :
  ~ In id (JsMap.keys pre) ->
  JsMap.set id v (pre ++ (id, old) :: post) = pre ++ (id, v) :: post.
Proof.
  induction pre as [| [k w] pre IH]; simpl; intro H.
  - now rewrite String.eqb_refl.
  - destruct (String.eqb k id) eqn:E.
    + apply String.eqb_eq in E; subst k; destruct H; left; reflexivity.
    + f_equal; apply IH; intro Hin; apply H; right; exact Hin.
Qed.

(** Jobs for ids that the table does not hold are appended in order. *)
Lemma set_jobs_absent (jobs : list (string * nat)) :
  forall m, NoDup (JsMap.keys m ++ map fst jobs) -> set_jobs jobs m = m ++ jobs.
Proof.
  induction jobs as [| [id h] rest IH]; intros m Hnd; simpl.
  - now rewrite app_nil_r.
  - unfold set_jobs in *; simpl.
    rewrite set_absent.
    + rewrite IH; [now rewrite <- app_assoc |].
      unfold JsMap.keys in *; rewrite map_app; simpl.
      now rewrite <- app_assoc.
    + apply NoDup_remove_2 in Hnd; intro Hin; apply Hnd, in_or_app; left; exact Hin.
Qed.

(** Jobs for ids that the table holds, in the same order, replace the
    handles in place. *)
Lemma set_jobs_present (ids : list string) :
  forall (done : JsMap.t nat) (olds news : list nat),
    NoDup (JsMap.keys done ++ ids) ->
    length olds = length ids -> length news = length ids ->
    set_jobs (combine ids news) (done ++ combine ids olds) = done ++ combine ids news.
Proof.
  induction ids as [| id rest IH]; intros done olds news Hnd Holds Hnews.
  - reflexivity.
  - destruct olds as [| old olds]; [discriminate |].
    destruct news as [| new news]; [discriminate |].
    unfold set_jobs in *; simpl.
    rewrite set_present
      by (apply NoDup_remove_2 in Hnd; intro Hin; apply Hnd, in_or_app; left; exact Hin).
    change (done ++ (id, new) :: combine rest olds)
      with (done ++ [(id, new)] ++ combine rest olds).
    rewrite app_assoc, IH.
    + now rewrite <- app_assoc.
    + unfold JsMap.keys in *; rewrite map_app; simpl.
      now rewrite <- app_assoc.
    + simpl in Holds; lia.
    + simpl in Hnews; lia.
Qed.

Lemma new_jobs_combine (entries : list (string * schedule)) (h : nat) :
  new_jobs h entries = combine (map fst entries) (seq h (length entries)).
Proof.
  revert h; unfold new_jobs; induction entries as [| entry rest IH]; intro h;
    [reflexivity |].
  rewrite numbered_cons; simpl; f_equal; apply IH.
Qed.






End TimerFacts.

(** ** MotiaScheduler: what [stop] clears *)

Module StopFacts.
Import MotiaScheduler SchedulerNotions.

Lemma job_handle_test (jobs : list (string * nat)) (x : nat) :
  existsb (fun job : string * nat => Nat.eqb (snd job) x) jobs = true
  <-> In x (map snd jobs).
Proof.
  rewrite existsb_exists, in_map_iff; split.
  - intros (job & Hin & Heq); apply Nat.eqb_eq in Heq; exists job; auto.
  - intros (job & Heq & Hin); exists job; split; [exact Hin | now apply Nat.eqb_eq].
Qed.

Lemma filter_all {A : Type} (f : A -> bool) (l : list A) :
  (forall x, In x l -> f x = true) -> filter f l = l.
Proof.
  induction l as [| a l IH]; simpl; intro H; [reflexivity |].
  rewrite (H a (or_introl eq_refl)); f_equal; apply IH; auto.
Qed.

Lemma filter_none {A : Type} (f : A -> bool) (l : list A) :
  (forall x, In x l -> f x = false) -> filter f l = [].
Proof.
  induction l as [| a l IH]; simpl; intro H; [reflexivity |].
  rewrite (H a (or_introl eq_refl)); apply IH; auto.
Qed.

(** The state after the first [start] of a scheduler that has no job
    and no timer yet. *)
Lemma start_fresh (s : t) :
  activeJobs s = [] -> timers s = [] ->
  NoDup (JsMap.keys (schedules s)) -> all_parse (schedules s) ->
  start s = (Ret tt,
             mkScheduler (schedules s)
                         (new_jobs (next_handle s) (schedules s))
                         (new_timers (next_handle s) (schedules s))
                         (next_handle s + length (schedules s))).
Proof.
  intros Hjobs Htimers Hnd Hparse; unfold start.
  rewrite (TimerFacts.start_each_all_parse _ s Hparse), Hjobs, Htimers.
  rewrite TimerFacts.set_jobs_absent; [reflexivity |].
  simpl; rewrite TimerFacts.new_jobs_keys; exact Hnd.
Qed.

(** The state after a second [start]: the jobs now hold the handles of the
    second round, and the timers of both rounds exist. *)
Lemma start_again (entries : list (string * schedule)) (h : nat) :
  NoDup (JsMap.keys entries) -> all_parse entries ->
  start (mkScheduler entries (new_jobs h entries) (new_timers h entries)
                     (h + length entries)) =
    (Ret tt,
     mkScheduler entries
                 (new_jobs (h + length entries) entries)
                 (new_timers h entries ++ new_timers (h + length entries) entries)
                 (h + length entries + length entries)).
Proof.
  intros Hnd Hparse; unfold start; simpl schedules.
  rewrite (TimerFacts.start_each_all_parse entries _ Hparse); simpl.
  rewrite !TimerFacts.new_jobs_combine.
  pose proof (TimerFacts.set_jobs_present (map fst entries) []
                (seq h (length entries)) (seq (h + length entries) (length entries))
                Hnd) as Hset.
  simpl in Hset; rewrite Hset; [reflexivity | |]; now rewrite length_seq, length_map.
Qed.

Lemma stop_timers (s : t) :
  timers (stop s) =
    filter (fun entry : nat * timer =>
              negb (existsb (fun job : string * nat => Nat.eqb (snd job) (fst entry))
                            (activeJobs s)))
           (timers s).
Proof. reflexivity. Qed.

(** X15. On a scheduler that was not started before, [start] followed by
    [stop] leaves nothing behind: no active job and no timer, so no
    further event is emitted. *)
Theorem start_then_stop_clears_all_timers (s : t) :
  activeJobs s = [] -> timers s = [] ->
  NoDup (JsMap.keys (schedules s)) -> all_parse (schedules s) ->
  activeJobs (stop (snd (start s))) = []
  /\ timers (stop (snd (start s))) = [].
Proof.
  intros Hjobs Htimers Hnd Hparse.
  rewrite (start_fresh s Hjobs Htimers Hnd Hparse); simpl snd.
  split; [reflexivity |].
  rewrite stop_timers; simpl activeJobs; simpl timers.
  apply filter_none; intros [k tm] Hin.
  apply negb_false_iff, job_handle_test.
  rewrite TimerFacts.new_jobs_handles, <- (TimerFacts.new_timers_handles (schedules s)).
  apply (in_map fst) in Hin; exact Hin.
Qed.

(** An instance of X15. *)
Lemma start_then_stop_clears_all_timers_witness :
  activeJobs (stop (snd (start Fixtures.three_jobs))) = []
  /\ timers (stop (snd (start Fixtures.three_jobs))) = [].
Proof.
  apply (start_then_stop_clears_all_timers Fixtures.three_jobs eq_refl eq_refl).
  - repeat constructor; simpl; intuition discriminate.
  - intros entry [<- | [<- | [<- | []]]]; eexists; reflexivity.
Defined.

(** X16. [start] called twice overwrites the handle of every job, so the
    following [stop] clears only the timers of the second call: all the
    timers created by the first call are still running after [stop], one
    per schedule. *)
Theorem start_twice_leaks_timers (s : t) :
  activeJobs s = [] -> timers s = [] ->
  NoDup (JsMap.keys (schedules s)) -> all_parse (schedules s) ->
  timers (stop (snd (start (snd (start s))))) = timers (snd (start s))
  /\ length (timers (stop (snd (start (snd (start s)))))) = length (schedules s)
  /\ activeJobs (stop (snd (start (snd (start s))))) = [].
Proof.
  intros Hjobs Htimers Hnd Hparse.
  rewrite (start_fresh s Hjobs Htimers Hnd Hparse); simpl snd.
  rewrite (start_again (schedules s) (next_handle s) Hnd Hparse); simpl snd.
  rewrite stop_timers; simpl activeJobs; simpl timers.
  assert (Hkeep :
    filter (fun entry : nat * timer =>
              negb (existsb (fun job : string * nat => Nat.eqb (snd job) (fst entry))
                      (new_jobs (next_handle s + length (schedules s)) (schedules s))))
           (new_timers (next_handle s) (schedules s)
              ++ new_timers (next_handle s + length (schedules s)) (schedules s))
    = new_timers (next_handle s) (schedules s)).
  { rewrite filter_app, filter_all, filter_none; [apply app_nil_r | |].
    - intros [k tm] Hin; apply negb_false_iff, job_handle_test.
      rewrite TimerFacts.new_jobs_handles,
        <- (TimerFacts.new_timers_handles (schedules s)).
      apply (in_map fst) in Hin; exact Hin.
    - intros [k tm] Hin; apply negb_true_iff.
      destruct (existsb _ _) eqn:E; [| reflexivity].
      apply job_handle_test in E; rewrite TimerFacts.new_jobs_handles in E.
      apply (in_map fst) in Hin; rewrite TimerFacts.new_timers_handles in Hin.
      simpl in E, Hin; apply in_seq in E; apply in_seq in Hin; lia. }
  rewrite Hkeep; repeat split.
  rewrite <- (length_map fst), TimerFacts.new_timers_handles; apply length_seq.
Qed.

(** An instance of X16: three timers survive. *)
Lemma start_twice_leaks_timers_witness :
  timers (stop (snd (start (snd (start Fixtures.three_jobs)))))
    = timers (snd (start Fixtures.three_jobs))
  /\ length (timers (stop (snd (start (snd (start Fixtures.three_jobs)))))) = 3
  /\ activeJobs (stop (snd (start (snd (start Fixtures.three_jobs))))) = [].
Proof.
  apply (start_twice_leaks_timers Fixtures.three_jobs eq_refl eq_refl).
  - repeat constructor; simpl; intuition discriminate.
  - intros entry [<- | [<- | [<- | []]]]; eexists; reflexivity.
Defined.

End StopFacts.

(** ** Durations: the scheduler's parser and the test harness's *)

Module DurationFacts.
Import MotiaScheduler.

Lemma parseInt_from_nonneg (s : string) :
  forall acc, (0 <= acc)%Z -> (0 <= Js.parseInt_from acc s)%Z.
Proof.
  induction s as [| c rest IH]; intros acc Hacc; cbn [Js.parseInt_from];
    [exact Hacc |].
  apply IH; pose proof (Nat2Z.is_nonneg (nat_of_ascii c - 48)); lia.
Qed.

(** X17. An interval returned by [parseSchedule] is never negative, so
    [setInterval] is never handed a negative period. *)
Theorem parseSchedule_nonnegative (s : string) (ms : Z) :
  parseSchedule s = Ret ms -> (0 <= ms)%Z.
Proof.
  unfold parseSchedule.
  destruct (timeRegex_match s) as [[value unit] |].
  - assert (Hnum : (0 <= Js.parseInt value)%Z)
      by (apply parseInt_from_nonneg; lia).
    repeat (match goal with |- context [if ?b then _ else _] => destruct b end);
      intros [= <-]; lia.
  - destruct (Nat.eqb _ 5); intros [= <-]; lia.
Qed.

(** An instance of X17. *)
Lemma parseSchedule_nonnegative_witness :
  parseSchedule "10m" = Ret 600000%Z /\ (0 <= 600000)%Z.
Proof.
  split; [reflexivity | exact (parseSchedule_nonnegative "10m" 600000%Z eq_refl)].
Defined.

(** An instance of the scheduler's duration rule. *)
Lemma parseSchedule_duration_witness :
  parseSchedule "45s" = Ret 45000%Z
  /\ parseSchedule "45m" = Ret 2700000%Z
  /\ parseSchedule "45h" = Ret 162000000%Z
  /\ parseSchedule "45d" = Ret 3888000000%Z.
Proof.
  refine (SchedulerFacts.parseSchedule_duration "45" _ eq_refl).
  discriminate.
Defined.





End DurationFacts.

(** ** createServer: failing handlers and unsupported methods *)

Module ApiFacts.
Import ApiServer.



(** X20. The route loop of [createServer] accepts only the methods
    [POST] and [GET], spelled in capitals: at the first API step with any
    other method it throws [Unsupported method: <method>]; the routes of
    the steps before it are installed already, and no route of a later
    step is. *)
Theorem register_routes_unsupported_method
    (before after : list ApiRoutes.ApiStep) (bad : ApiRoutes.ApiStep)
    (app : list ApiRoutes.Route) :
  (forall s, In s before -> ApiRoutes.route_of s <> None) ->
  ApiRoutes.method (ApiRoutes.config bad) <> "POST" ->
  ApiRoutes.method (ApiRoutes.config bad) <> "GET" ->
  exists installed,
    ApiRoutes.register_routes (before ++ bad :: after) app =
      (Throw (mkError (String.append "Unsupported method: "
                         (ApiRoutes.method (ApiRoutes.config bad)))),
       app ++ installed)
    /\ map Some installed = map ApiRoutes.route_of before.
Proof.
  intros Hbefore Hpost Hget; revert app.
  induction before as [| s rest IH]; intro app.
  - exists []; simpl; unfold ApiRoutes.route_of.
    apply String.eqb_neq in Hpost; apply String.eqb_neq in Hget.
    rewrite Hpost, Hget, app_nil_r; split; reflexivity.
  - simpl.
    destruct (ApiRoutes.route_of s) as [r |] eqn:Hr;
      [| destruct (Hbefore s (or_introl eq_refl) Hr)].
    destruct (IH (fun s' H => Hbefore s' (or_intror H)) (app ++ [r]))
      as (installed & Hrun & Hmap).
    exists (r :: installed); rewrite Hrun, <- app_assoc; simpl.
    split; [reflexivity | now rewrite Hmap].
Qed.

(** An instance of X20: a step declared with the method [post]. *)
Lemma register_routes_unsupported_method_witness :
  exists installed,
    ApiRoutes.register_routes
      ([ApiRoutes.mkApiStep Scenarios.api_step
          (ApiRoutes.mkApiConfig "GET" "/status" ["orders"])]
         ++ ApiRoutes.mkApiStep Fixtures.failing_api_step
              (ApiRoutes.mkApiConfig "post" "/orders" ["orders"])
         :: [ApiRoutes.mkApiStep Scenarios.api_step
               (ApiRoutes.mkApiConfig "POST" "/late" ["orders"])])
      []
    = (Throw (mkError "Unsupported method: post"), [] ++ installed)
    /\ map Some installed
       = map ApiRoutes.route_of
           [ApiRoutes.mkApiStep Scenarios.api_step
              (ApiRoutes.mkApiConfig "GET" "/status" ["orders"])].
Proof.
  refine (register_routes_unsupported_method
            [ApiRoutes.mkApiStep Scenarios.api_step
               (ApiRoutes.mkApiConfig "GET" "/status" ["orders"])]
            [ApiRoutes.mkApiStep Scenarios.api_step
               (ApiRoutes.mkApiConfig "POST" "/late" ["orders"])]
            (ApiRoutes.mkApiStep Fixtures.failing_api_step
               (ApiRoutes.mkApiConfig "post" "/orders" ["orders"]))
            [] _ _ _).
  - intros s [<- | []]; discriminate.
  - discriminate.
  - discriminate.
Defined.

End ApiFacts.
